(** * context6: indexing, retrieval, ranking and evaluation

    A shallow embedding of the core of the [context6] package
    ([core/indexer.py], [db/sqlite.py], [core/retrieve.py],
    [core/summarize.py], [core/eval.py]) together with the properties its
    specification states about it.

    Conventions of the embedding.
    - A Python [str] and a SQLite [TEXT] value are a [string]: a sequence of
      code points, one [ascii] per code point, so the model covers text whose
      code points are below 256.  Character classes ([str.isspace],
      [str.lower], the [\w] and [\s] of [re]) follow Python's tables on that
      range; SQLite folds case on the ASCII letters only.
    - A Python [int] and a SQLite [INTEGER] are a [Z]; SQL [NULL] and Python
      [None] are the [None] of an option.
    - A Python [float] is a primitive binary64 [float] where arithmetic is
      done on it (the evaluator), and a rational where it is only compared
      (the text-relevance score, a finite double).
    - A table is the list of its rows in rowid order. *)

From Stdlib Require Import ZArith QArith List String Ascii Sorted Permutation.
From Stdlib Require Import Floats.PrimFloat Uint63.
From stdpp Require Import base tactics option list sorting gmap strings.

Set Warnings "-register-all".

Open Scope string_scope.
Open Scope Z_scope.
Open Scope list_scope.

(** ** Python strings *)

Module PyStr.

Definition code (c : ascii) : N := N_of_ascii c.

Definition in_range (lo hi : N) (c : ascii) : bool :=
  ((lo <=? code c) && (code c <=? hi))%N.

(** [str.isspace] on one character, also the [\s] of [re] on [str]
    patterns: U+0009..U+000D, U+001C..U+0020, U+0085, U+00A0. *)
Definition isspace (c : ascii) : bool :=
  in_range 9 13 c || in_range 28 32 c || (code c =? 133)%N || (code c =? 160)%N.

Definition is_ascii_upper (c : ascii) : bool := in_range 65 90 c.
Definition is_ascii_lower (c : ascii) : bool := in_range 97 122 c.
Definition is_ascii_alpha (c : ascii) : bool := is_ascii_upper c || is_ascii_lower c.
Definition is_ascii_digit (c : ascii) : bool := in_range 48 57 c.

(** The [\w] of [re] on [str] patterns: [str.isalnum] or an underscore. *)
Definition isword (c : ascii) : bool :=
  is_ascii_alpha c || is_ascii_digit c || (code c =? 95)%N
  || (code c =? 170)%N || (code c =? 178)%N || (code c =? 179)%N
  || (code c =? 181)%N || (code c =? 185)%N || (code c =? 186)%N
  || in_range 188 190 c || in_range 192 214 c || in_range 216 246 c
  || in_range 248 255 c.

(** [str.lower] on one character: the ASCII capitals and the Latin-1
    capitals U+00C0..U+00DE (without the multiplication sign U+00D7). *)
Definition lower_char (c : ascii) : ascii :=
  if is_ascii_upper c || (in_range 192 222 c && negb (code c =? 215)%N)
  then ascii_of_N (code c + 32) else c.

Fixpoint lower (s : string) : string :=
  match s with
  | EmptyString => EmptyString
  | String c s' => String (lower_char c) (lower s')
  end.

Definition is_empty (s : string) : bool :=
  match s with EmptyString => true | _ => false end.

Fixpoint lstrip (s : string) : string :=
  match s with
  | EmptyString => EmptyString
  | String c s' => if isspace c then lstrip s' else s
  end.

Fixpoint rstrip (s : string) : string :=
  match s with
  | EmptyString => EmptyString
  | String c s' =>
      let r := rstrip s' in
      if is_empty r && isspace c then EmptyString else String c r
  end.

(** [s.strip()] *)
Definition strip (s : string) : string := rstrip (lstrip s).

(** [s.startswith(p)] *)
Definition startswith (s p : string) : bool := String.prefix p s.

(** [sub in s] *)
Fixpoint contains (sub s : string) : bool :=
  String.prefix sub s ||
  match s with
  | EmptyString => false
  | String _ s' => contains sub s'
  end.

(** ["c" in s] for a single character. *)
Fixpoint has_char (c : ascii) (s : string) : bool :=
  match s with
  | EmptyString => false
  | String d s' => Ascii.eqb c d || has_char c s'
  end.

(** [s.split(c)] for a one-character separator: never empty. *)
Fixpoint split_char (c : ascii) (s : string) : list string :=
  match s with
  | EmptyString => [EmptyString]
  | String d s' =>
      match split_char c s' with
      | [] => [String d EmptyString]
      | p :: ps => if Ascii.eqb c d then EmptyString :: p :: ps
                   else String d p :: ps
      end
  end.

(** [s.rsplit(c, 1)[-1]]: what follows the last [c], the whole of [s]
    when it has none. *)
Definition rsplit_last (c : ascii) (s : string) : string :=
  List.last (split_char c s) EmptyString.

Fixpoint drop (n : nat) (s : string) : string :=
  match n, s with
  | O, _ => s
  | S n', String _ s' => drop n' s'
  | S _, EmptyString => EmptyString
  end.

(** [s.split(sep, 1)[0]]: what precedes the first occurrence of a
    non-empty [sep], the whole of [s] when it has none. *)
Fixpoint split_first (sep s : string) : string :=
  if String.prefix sep s then EmptyString
  else match s with
       | EmptyString => EmptyString
       | String c s' => String c (split_first sep s')
       end.

(** [sep.join(l)] *)
Definition join (sep : string) (l : list string) : string := String.concat sep l.

(** [s.replace(a, b)] for single characters [a] and a string [b]. *)
Fixpoint replace_char (a : ascii) (b : string) (s : string) : string :=
  match s with
  | EmptyString => EmptyString
  | String c s' =>
      if Ascii.eqb a c then b +:+ replace_char a b s'
      else String c (replace_char a b s')
  end.

(** The longest prefix of [s] whose characters satisfy [p], and the rest. *)
Fixpoint span (p : ascii -> bool) (s : string) : string * string :=
  match s with
  | EmptyString => (EmptyString, EmptyString)
  | String c s' =>
      if p c then let '(a, b) := span p s' in (String c a, b)
      else (EmptyString, s)
  end.

Fixpoint all_chars (p : ascii -> bool) (s : string) : bool :=
  match s with
  | EmptyString => true
  | String c s' => p c && all_chars p s'
  end.

End PyStr.

(** ** Orders and sorting

    Python compares key tuples lexicographically and [sorted] is stable;
    SQLite's [ORDER BY a, b, c] is the same lexicographic order on the
    columns, [TEXT] being compared code point by code point. *)

Module Order.

Definition lex (c1 c2 : comparison) : comparison :=
  match c1 with Eq => c2 | _ => c1 end.

Definition leb_of {A} (cmp : A -> A -> comparison) (a b : A) : bool :=
  match cmp a b with Gt => false | _ => true end.

Definition cmp_pair {A B} (ca : A -> A -> comparison) (cb : B -> B -> comparison)
    (x y : A * B) : comparison :=
  lex (ca (fst x) (fst y)) (cb (snd x) (snd y)).

(** A comparison that is a total preorder: what sorting needs. *)
Class CmpLaws {A} (cmp : A -> A -> comparison) : Prop := {
  cmp_antisym : forall a b, cmp b a = CompOpp (cmp a b);
  cmp_eq_l : forall a b c, cmp a b = Eq -> cmp a c = cmp b c;
  cmp_lt_trans : forall a b c, cmp a b = Lt -> cmp b c = Lt -> cmp a c = Lt
}.

Section Sort.
Context {A K : Type} (key : A -> K) (cmp : K -> K -> comparison).

Definition key_leb (a b : A) : bool := leb_of cmp (key a) (key b).

(** The order a sorted list is in. *)
Definition key_le (a b : A) : Prop := key_leb a b = true.

Fixpoint insert_sorted (x : A) (l : list A) : list A :=
  match l with
  | [] => [x]
  | y :: l' => if key_leb x y then x :: l else y :: insert_sorted x l'
  end.

(** [sorted(l, key=key)]: stable, an element goes in front of the
    later elements that compare equal to it. *)
Definition sorted_by (l : list A) : list A := foldr insert_sorted [] l.
End Sort.

(** [l[:n]] of Python: a negative [n] counts from the end. *)
Definition py_take {A} (n : Z) (l : list A) : list A :=
  if n <? 0 then take (Z.to_nat (Z.of_nat (length l) + n)) l
  else take (Z.to_nat n) l.

(** [LIMIT n] of SQLite: a negative [n] is no limit. *)
Definition sql_limit {A} (n : Z) (l : list A) : list A :=
  if n <? 0 then l else take (Z.to_nat n) l.

End Order.

(** ** SQLite's [LIKE] *)

Module Sql.

(** SQLite folds the 26 ASCII letters and nothing else. *)
Definition fold_case (c : ascii) : ascii :=
  if PyStr.is_ascii_upper c then ascii_of_N (PyStr.code c + 32) else c.

Definition percent : ascii := "%"%char.
Definition underscore : ascii := "_"%char.

(** [s LIKE p] without an [ESCAPE]: [%] stands for any run of
    characters, [_] for any one character, every other character for
    itself up to ASCII case. *)
Fixpoint like_from (p : string) (s : string) : bool :=
  match p with
  | EmptyString => PyStr.is_empty s
  | String c p' =>
      if Ascii.eqb c percent then
        (fix any_run (s : string) : bool :=
           like_from p' s ||
           match s with
           | EmptyString => false
           | String _ s' => any_run s'
           end) s
      else
        match s with
        | EmptyString => false
        | String d s' =>
            (Ascii.eqb c underscore || Ascii.eqb (fold_case c) (fold_case d))
            && like_from p' s'
        end
  end.

Definition like (s p : string) : bool := like_from p s.

End Sql.

(** ** The store ([db/sqlite.py], the write path of [core/summarize.py]) *)

Module Store.

(** A row of the [entities] table, column by column. *)
Record entity := Entity {
  id : Z;
  kind : string;
  fqname : string;
  file : string;
  start_line : Z;
  end_line : Z;
  signature : string;
  docstring : option string;
  summary : option string;
  summary_hash : option string;
  code_truncated : option Z;
  summary_prompt_tokens : option Z;
  summary_coverage : option string;
  summary_backend : option string;
  summary_error : option string;
  code_hash : string;
  updated_at : option string
}.

(** A row of the [relations] table (its rowid is never read). *)
Record relation := Relation { src : string; rel : string; dst : string }.

(** A row of the full-text index: the rowid and the four indexed columns. *)
Record fts_doc := FtsDoc {
  fts_rowid : Z;
  fts_fqname : string;
  fts_signature : string;
  fts_docstring : option string;
  fts_summary : option string
}.

Record store := MkStore {
  entities : list entity;
  relations : list relation;
  entities_fts : list fts_doc
}.

(** An entity of the index handed to [ingest_index]: the keys read with
    [e[...]] are there, the keys read with [e.get(..., "")] may be
    missing ([None]). *)
Record index_entity := IndexEntity {
  ie_kind : string;
  ie_fqname : string;
  ie_file : string;
  ie_start_line : Z;
  ie_end_line : Z;
  ie_signature : option string;
  ie_docstring : option string;
  ie_summary : option string;
  ie_code_hash : string
}.

Record index := MkIndex {
  idx_root : string;
  idx_entities : list index_entity;
  idx_relations : list relation
}.

Definition same_key (e : index_entity) (r : entity) : bool :=
  String.eqb (kind r) (ie_kind e) && String.eqb (fqname r) (ie_fqname e).

(** [e.get(k, "")] *)
Definition get_or_empty (v : option string) : string := default "" v.

(** The next rowid of an [INTEGER PRIMARY KEY] column: one more than the
    largest in the table. *)
Definition next_id (rows : list entity) : Z :=
  1 + foldr (fun r m => Z.max (id r) m) 0 rows.

(** The [DO UPDATE SET] of the upsert, applied to the conflicting row. *)
Definition refresh (now : string) (e : index_entity) (r : entity) : entity :=
  {| id := id r; kind := kind r; fqname := fqname r;
     file := ie_file e;
     start_line := ie_start_line e;
     end_line := ie_end_line e;
     signature := get_or_empty (ie_signature e);
     docstring := Some (get_or_empty (ie_docstring e));
     summary := summary r;
     summary_hash := summary_hash r;
     code_truncated := code_truncated r;
     summary_prompt_tokens := summary_prompt_tokens r;
     summary_coverage := summary_coverage r;
     summary_backend := summary_backend r;
     summary_error := summary_error r;
     code_hash := ie_code_hash e;
     updated_at := Some now |}.

(** The row that the [INSERT] creates when there is no conflict: the
    columns it does not name take their defaults. *)
Definition fresh (now : string) (new_id : Z) (e : index_entity) : entity :=
  {| id := new_id; kind := ie_kind e; fqname := ie_fqname e;
     file := ie_file e;
     start_line := ie_start_line e;
     end_line := ie_end_line e;
     signature := get_or_empty (ie_signature e);
     docstring := Some (get_or_empty (ie_docstring e));
     summary := Some (get_or_empty (ie_summary e));
     summary_hash := None;
     code_truncated := Some 0;
     summary_prompt_tokens := None;
     summary_coverage := None;
     summary_backend := None;
     summary_error := None;
     code_hash := ie_code_hash e;
     updated_at := Some now |}.

(** [INSERT INTO entities ... ON CONFLICT(kind, fqname) DO UPDATE SET ...] *)
Definition upsert (now : string) (e : index_entity) (rows : list entity) : list entity :=
  if existsb (same_key e) rows
  then map (fun r => if same_key e r then refresh now e r else r) rows
  else rows ++ [fresh now (next_id rows) e].

(** The [for e in idx["entities"]] loop; [clock i] is what
    [datetime('now')] gives while the [i]-th entity is written. *)
Fixpoint upsert_all (clock : nat -> string) (i : nat)
    (es : list index_entity) (rows : list entity) : list entity :=
  match es with
  | [] => rows
  | e :: es' => upsert_all clock (S i) es' (upsert (clock i) e rows)
  end.

(** [INSERT INTO entities_fts(entities_fts) VALUES('rebuild')] *)
Definition rebuild_fts (rows : list entity) : list fts_doc :=
  map (fun r => FtsDoc (id r) (fqname r) (signature r) (docstring r) (summary r)) rows.

(** [ingest_index]: one transaction, none of whose statements can fail on
    a well-typed index. *)
Definition ingest_index (clock : nat -> string) (idx : index) (s : store) : store :=
  let rows := upsert_all clock 0 (idx_entities idx) (entities s) in
  {| entities := rows;
     relations := idx_relations idx;
     entities_fts := rebuild_fts rows |}.

(** The outcome of a write: Python returns or raises. *)
Inductive outcome :=
| Done
| ValueError
| CheckConstraintFailed
| RowcountError (rowcount : Z).

(** The [CHECK] of the [summary_backend] column, as the schema spells it. *)
Definition check_summary_backend (b : option string) : bool :=
  match b with
  | None => true
  | Some v => String.eqb v "ollam" || String.eqb v "codex"
  end.

Definition has_id (i : Z) (r : entity) : bool := Z.eqb (id r) i.

Definition set_summary (now summary' code_hash' : string) (was_truncated : bool)
    (approx_tokens : Z) (coverage backend : string) (r : entity) : entity :=
  {| id := id r; kind := kind r; fqname := fqname r; file := file r;
     start_line := start_line r; end_line := end_line r;
     signature := signature r; docstring := docstring r;
     summary := Some summary';
     summary_hash := Some code_hash';
     code_truncated := Some (if was_truncated then 1 else 0);
     summary_prompt_tokens := Some approx_tokens;
     summary_coverage := Some coverage;
     summary_backend := Some backend;
     summary_error := None;
     code_hash := code_hash r;
     updated_at := Some now |}.

Definition with_entities (s : store) (rows : list entity) : store :=
  {| entities := rows; relations := relations s; entities_fts := entities_fts s |}.

(** [write_summary_cur] of [core/summarize.py].  The statement is rolled
    back when the [CHECK] fails; the rowcount is looked at after the
    statement has run. *)
Definition write_summary_cur (now : string) (entity_id : Z)
    (summary' code_hash' : string) (was_truncated : bool) (approx_tokens : Z)
    (coverage backend : string) (s : store) : store * outcome :=
  if negb (String.eqb backend "ollama" || String.eqb backend "codex")
  then (s, ValueError)
  else
    let hit := filter (fun r => has_id entity_id r = true) (entities s) in
    if negb (check_summary_backend (Some backend)) && negb (bool_decide (hit = []))
    then (s, CheckConstraintFailed)
    else
      let rows := map (fun r => if has_id entity_id r
                                then set_summary now summary' code_hash'
                                       was_truncated approx_tokens coverage backend r
                                else r) (entities s) in
      let rowcount := Z.of_nat (length hit) in
      if rowcount =? 1 then (with_entities s rows, Done)
      else (with_entities s rows, RowcountError rowcount).

(** [write_summary] of [db/sqlite.py]: the same table, no rowcount check. *)
Definition write_summary (now : string) (entity_id : Z) (summary' : string)
    (s : store) : store * outcome :=
  let rows := map (fun r => if has_id entity_id r
                            then {| id := id r; kind := kind r; fqname := fqname r;
                                    file := file r; start_line := start_line r;
                                    end_line := end_line r; signature := signature r;
                                    docstring := docstring r;
                                    summary := Some summary';
                                    summary_hash := summary_hash r;
                                    code_truncated := code_truncated r;
                                    summary_prompt_tokens := summary_prompt_tokens r;
                                    summary_coverage := summary_coverage r;
                                    summary_backend := summary_backend r;
                                    summary_error := summary_error r;
                                    code_hash := code_hash r;
                                    updated_at := Some now |}
                            else r) (entities s) in
  (with_entities s rows, Done).

End Store.

(** ** Retrieval ([core/retrieve.py])

    A store of the model has its tables, so [_ensure_initialized] never
    raises and is left out. *)

Module Retrieve.
Import Store Order.

Definition dquote : ascii := ascii_of_N 34.
Definition dot : ascii := "."%char.

Definition cmp_ZSS : Z * string * string -> Z * string * string -> comparison :=
  cmp_pair (cmp_pair Z.compare String.compare) String.compare.

(** [_normalize_kinds] *)
Definition _normalize_kinds (kinds : option (list string)) : option (list string) :=
  match kinds with
  | None => None
  | Some ks =>
      match map PyStr.strip
              (List.filter (fun k => negb (PyStr.is_empty k)
                                     && negb (PyStr.is_empty (PyStr.strip k))) ks) with
      | [] => None
      | out => Some out
      end
  end.

(** The [kind IN (...)] clause, absent when there is no allow-list. *)
Definition kind_clause (kinds : option (list string)) (e : entity) : bool :=
  match kinds with
  | None => true
  | Some ks => existsb (String.eqb (kind e)) ks
  end.

(** [_fqname_boost] *)
Definition _fqname_boost (fqname query : string) : Z :=
  let q := PyStr.lower (PyStr.strip query) in
  let f := PyStr.lower (PyStr.strip fqname) in
  if PyStr.is_empty q || PyStr.is_empty f then 0
  else if String.eqb q f then 1000
  else if String.eqb q (PyStr.rsplit_last dot f) then 600
  else if PyStr.contains q f then 250
  else 0.

(** [_fts_phrase] *)
Definition _fts_phrase (q : string) : string :=
  String dquote
    (PyStr.replace_char dquote (String dquote (String dquote EmptyString)) q
     +:+ String dquote EmptyString).

(** *** The regular expressions of the module, each as the matcher it
    compiles to.  Every repetition in them is followed by a character
    outside its class, so the longest run is the only one that can match. *)

Definition eat_lit (lit s : string) : option string :=
  if String.prefix lit s then Some (PyStr.drop (String.length lit) s) else None.

Definition eat_star (p : ascii -> bool) (s : string) : string * string :=
  PyStr.span p s.

Definition eat_plus (p : ascii -> bool) (s : string) : option (string * string) :=
  match PyStr.span p s with
  | (EmptyString, _) => None
  | r => Some r
  end.

Definition is_fqname_char (c : ascii) : bool :=
  PyStr.is_ascii_alpha c || PyStr.is_ascii_digit c
  || Ascii.eqb c Sql.underscore || Ascii.eqb c dot.

Definition is_word_or_dot (c : ascii) : bool := PyStr.isword c || Ascii.eqb c dot.
Definition is_word_or_star (c : ascii) : bool := PyStr.isword c || Ascii.eqb c "*"%char.
Definition is_ident_start (c : ascii) : bool :=
  PyStr.is_ascii_alpha c || Ascii.eqb c Sql.underscore.

(** [_FQNAME_LIKE.fullmatch(q)], the pattern [^[A-Za-z0-9_.]+$] *)
Definition fqname_like (q : string) : bool :=
  negb (PyStr.is_empty q) && PyStr.all_chars is_fqname_char q.

(** [_CODE_LIKE.fullmatch(q)], the pattern
    [(^from\s+[\w.]+\s+import\s+[\w*]+$)|(^import\s+[\w.]+$)] *)
Definition code_like (q : string) : bool :=
  match
    s1 ← eat_lit "from" q;
    '(_, s2) ← eat_plus PyStr.isspace s1;
    '(_, s3) ← eat_plus is_word_or_dot s2;
    '(_, s4) ← eat_plus PyStr.isspace s3;
    s5 ← eat_lit "import" s4;
    '(_, s6) ← eat_plus PyStr.isspace s5;
    '(_, s7) ← eat_plus is_word_or_star s6;
    Some (PyStr.is_empty s7)
  with
  | Some true => true
  | _ =>
      match
        s1 ← eat_lit "import" q;
        '(_, s2) ← eat_plus PyStr.isspace s1;
        '(_, s3) ← eat_plus is_word_or_dot s2;
        Some (PyStr.is_empty s3)
      with
      | Some true => true
      | _ => false
      end
  end.

(** [_normalize_fts_query] *)
Definition _normalize_fts_query (q : string) : string :=
  let q := PyStr.strip q in
  if fqname_like q then _fts_phrase q
  else if code_like q
          || (PyStr.has_char dot q && PyStr.has_char " "%char q
              && (PyStr.contains "import" q || PyStr.contains "from" q))
  then _fts_phrase q
  else q.

(** *** [lookup_symbol] *)

#[global] Instance entity_eq_dec : EqDecision entity.
Proof. solve_decision. Defined.

(** One [SELECT *, rank AS rank FROM entities WHERE cond AND kind IN ...] *)
Definition select_tier (rank : Z) (cond : entity -> bool)
    (kinds : option (list string)) (rows : list entity) : list (entity * Z) :=
  map (fun e => (e, rank)) (List.filter (fun e => cond e && kind_clause kinds e) rows).

Definition tier0 (name : string) (e : entity) : bool := String.eqb (fqname e) name.
Definition tier1 (name : string) (e : entity) : bool :=
  Sql.like (fqname e) ("%." +:+ name).
Definition tier2 (name : string) (e : entity) : bool :=
  Sql.like (fqname e) ("%" +:+ name +:+ "%").

Definition tier_cond (rank : Z) (name : string) (e : entity) : bool :=
  if rank =? 0 then tier0 name e
  else if rank =? 1 then tier1 name e
  else if rank =? 2 then tier2 name e
  else false.

(** [ORDER BY rank, kind, fqname] *)
Definition row_key (r : entity * Z) : Z * string * string :=
  (snd r, kind (fst r), fqname (fst r)).

(** The compound select before its [LIMIT]: [UNION] drops the rows that
    are equal in every column, the rank included. *)
Definition lookup_rows (s : store) (name : string) (kinds : option (list string))
    : list (entity * Z) :=
  let kinds := _normalize_kinds kinds in
  sorted_by row_key cmp_ZSS
    (remove_dups (select_tier 0 (tier0 name) kinds (entities s)
                  ++ select_tier 1 (tier1 name) kinds (entities s)
                  ++ select_tier 2 (tier2 name) kinds (entities s))).

(** [lookup_symbol(db, name, limit, kinds)["matches"]]: the rows with
    their [rank] column. *)
Definition lookup_symbol (s : store) (name : string) (limit : Z)
    (kinds : option (list string)) : list (entity * Z) :=
  sql_limit limit (lookup_rows s name kinds).

(** *** [search] *)

(** What [con.execute] on the full-text query gives: the candidate rows
    with their [bm25] score, or the exception it raises. *)
Inductive engine_reply :=
| Rows (rows : list (entity * Q))
| OperationalError (msg : string)
| OtherError (msg : string).

(** The full-text engine over the current index: the [MATCH] argument,
    the kind allow-list and the [LIMIT] in, the reply out. *)
Definition fts_engine : Type := string -> option (list string) -> Z -> engine_reply.

Inductive search_result :=
| Results (rows : list (entity * Q))
| Raised (reply : engine_reply).

Definition cmp_ZQSS : Z * Q * string * string -> Z * Q * string * string -> comparison :=
  cmp_pair (cmp_pair (cmp_pair Z.compare Qcompare) String.compare) String.compare.

(** The sort key of the re-ranking. *)
Definition rank_key (raw_query : string) (r : entity * Q) : Z * Q * string * string :=
  (- _fqname_boost (fqname (fst r)) raw_query, snd r, kind (fst r), fqname (fst r)).

Definition rerank (raw_query : string) (limit : Z) (rows : list (entity * Q))
    : list (entity * Q) :=
  py_take limit (sorted_by (rank_key raw_query) cmp_ZQSS rows).

Definition candidate_limit (limit : Z) : Z := Z.max limit (Z.min 1000 (limit * 20)).

(** [search(db, query, limit, kinds)]: the [MATCH] arguments sent to the
    engine, in order, and the [results] or the exception that escapes. *)
Definition search (fts : fts_engine) (query : string) (limit : Z)
    (kinds : option (list string)) : list string * search_result :=
  let raw_query := query in
  let query := _normalize_fts_query query in
  let kinds := _normalize_kinds kinds in
  match fts query kinds (candidate_limit limit) with
  | Rows rows => ([query], Results (rerank raw_query limit rows))
  | OperationalError msg =>
      if PyStr.contains "fts5: syntax error" msg then
        let quoted := _fts_phrase (PyStr.strip raw_query) in
        match fts quoted kinds (candidate_limit limit) with
        | Rows rows => ([query; quoted], Results (rerank raw_query limit rows))
        | err => ([query; quoted], Raised err)
        end
      else ([query], Raised (OperationalError msg))
  | OtherError msg => ([query], Raised (OtherError msg))
  end.

(** *** [normalize_resolve_query] *)

Record resolve_query := ResolveQuery {
  raw_query : string;
  normalized_query : string;
  candidates : list string
}.

(** The local [add]: the candidates so far and the [seen] set. *)
Definition add (v : string) (st : list string * gset string) : list string * gset string :=
  let v := PyStr.strip v in
  if PyStr.is_empty v || bool_decide (v ∈ st.2) then st
  else (st.1 ++ [v], {[v]} ∪ st.2).

Definition add_all (vs : list string) (st : list string * gset string)
    : list string * gset string :=
  foldl (fun st v => add v st) st vs.

(** [_IDENT.fullmatch(sym)], the pattern [[A-Za-z_]\w*] *)
Definition ident_fullmatch (sym : string) : bool :=
  match sym with
  | EmptyString => false
  | String c s' => is_ident_start c && PyStr.all_chars PyStr.isword s'
  end.

(** A module path [[A-Za-z_][\w.]*] at the front of [s], and the rest. *)
Definition eat_module (s : string) : option (string * string) :=
  match s with
  | EmptyString => None
  | String c s' =>
      if is_ident_start c
      then let '(m, rest) := eat_star is_word_or_dot s' in Some (String c m, rest)
      else None
  end.

(** [re.match] of the [from] pattern on [raw_query]: in order
    [^\s*from\s+], the group [[A-Za-z_][\w.]*], [\s+import\s+], the lazy
    group [.+?], and [\s*$].  The trimmed query does not end in white
    space, so the lazy group runs to the end of the string, which it can
    only do when no line feed stands in its way.  The two groups. *)
Definition from_import_match (raw : string) : option (string * string) :=
  let '(_, s0) := eat_star PyStr.isspace raw in
  s1 ← eat_lit "from" s0;
  '(_, s2) ← eat_plus PyStr.isspace s1;
  '(module, s3) ← eat_module s2;
  '(_, s4) ← eat_plus PyStr.isspace s3;
  s5 ← eat_lit "import" s4;
  '(_, imported) ← eat_plus PyStr.isspace s5;
  if PyStr.is_empty imported || PyStr.has_char (ascii_of_N 10) imported then None
  else Some (module, imported).

(** [re.match] of the [import] pattern on [raw_query]: [^\s*import\s+]
    and the group [[A-Za-z_][\w.]*].  The group. *)
Definition import_match (raw : string) : option string :=
  let '(_, s0) := eat_star PyStr.isspace raw in
  s1 ← eat_lit "import" s0;
  '(_, s2) ← eat_plus PyStr.isspace s1;
  '(module, _) ← eat_module s2;
  Some module.

Definition is_resolve_punct (c : ascii) : bool :=
  existsb (Ascii.eqb c)
    ["`"; "("; ")"; "["; "]"; "{"; "}"; ":"; ","]%char.

(** [re.sub(r"[`()\[\]{}:,]+", " ", s)]: every run becomes one space. *)
Fixpoint sub_punct (in_run : bool) (s : string) : string :=
  match s with
  | EmptyString => EmptyString
  | String c s' =>
      if is_resolve_punct c
      then if in_run then sub_punct true s' else String " " (sub_punct true s')
      else String c (sub_punct false s')
  end.

(** [re.split(r"\s+", s)]: the pieces between the runs of white space,
    the empty ones at either end included. *)
Fixpoint split_ws (in_run : bool) (s : string) : list string :=
  match s with
  | EmptyString => [EmptyString]
  | String c s' =>
      if PyStr.isspace c
      then if in_run then split_ws true s' else EmptyString :: split_ws true s'
      else match split_ws false s' with
           | [] => [String c EmptyString]
           | p :: ps => String c p :: ps
           end
  end.

(** The candidates of the [from ... import ...] rule, in the order the
    loop hands them to [add]. *)
Definition from_rule (raw : string) : list string :=
  match from_import_match raw with
  | None => []
  | Some (module, imported) =>
      flat_map
        (fun part =>
           let sym := PyStr.strip (PyStr.split_first " as " (PyStr.strip part)) in
           if ident_fullmatch sym then [sym; module +:+ "." +:+ sym] else [])
        (PyStr.split_char ","%char imported)
  end.

Definition import_rule (raw : string) : list string :=
  match import_match raw with
  | None => []
  | Some module => [module; PyStr.rsplit_last dot module]
  end.

(** [parts[-2:]] *)
Definition last_two (parts : list string) : list string :=
  drop (length parts - 2)%nat parts.

(** What one dotted token hands to [add]. *)
Definition token_rule (tok : string) : list string :=
  let parts := List.filter (fun p => negb (PyStr.is_empty p)) (PyStr.split_char dot tok) in
  match parts with
  | [] => []
  | _ =>
      [tok; List.last parts EmptyString]
      ++ (if (2 <=? length parts)%nat
          then [PyStr.join "." (last_two parts);
                List.last (removelast parts) EmptyString]
          else [])
  end.

Definition dotted_tokens (raw : string) : list string :=
  map PyStr.strip
    (List.filter (PyStr.has_char dot) (split_ws false (sub_punct false raw))).

Definition dotted_rule (raw : string) : list string :=
  flat_map token_rule (dotted_tokens raw).

Definition raw_rule (raw : string) : list string :=
  raw :: (if PyStr.has_char dot raw then [PyStr.rsplit_last dot raw] else []).

Definition normalize_resolve_query (query : string) : resolve_query :=
  let raw_query := PyStr.strip query in
  if PyStr.is_empty raw_query
  then ResolveQuery raw_query EmptyString []
  else
    let st := ([], ∅) in
    let st := add_all (from_rule raw_query) st in
    let st := add_all (import_rule raw_query) st in
    let st := add_all (dotted_rule raw_query) st in
    let st := add_all (raw_rule raw_query) st in
    let candidates := st.1 in
    ResolveQuery raw_query
      (match candidates with c :: _ => c | [] => raw_query end)
      candidates.

(** *** [class_methods] and [module_neighbors] *)

Definition cmp_ZS : Z * string -> Z * string -> comparison :=
  cmp_pair Z.compare String.compare.

Definition cmp_ZZS : Z * Z * string -> Z * Z * string -> comparison :=
  cmp_pair (cmp_pair Z.compare Z.compare) String.compare.

Definition cmp_ZZZS : Z * Z * Z * string -> Z * Z * Z * string -> comparison :=
  cmp_pair (cmp_pair (cmp_pair Z.compare Z.compare) Z.compare) String.compare.

(** [ORDER BY start_line, fqname] *)
Definition line_key (e : entity) : Z * string := (start_line e, fqname e).

(** The rows [class_methods] fetches. *)
Definition method_rows (s : store) (class_fqname : string) : list entity :=
  sql_limit 250
    (sorted_by line_key cmp_ZS
       (List.filter (fun e => String.eqb (kind e) "method"
                              && Sql.like (fqname e) (class_fqname +:+ ".%"))
          (entities s))).

(** The local [_method_name] *)
Definition _method_name (class_fqname fqname : string) : string :=
  if negb (PyStr.startswith fqname (class_fqname +:+ "."))
  then PyStr.rsplit_last dot fqname
  else PyStr.drop (String.length class_fqname + 1) fqname.

Definition prefer_exact : list string :=
  ["__init__"; "from_dict"; "as_dict"; "to_dict"; "from_json"; "to_json"].

Definition prefer_prefix : list string :=
  ["from_"; "as_"; "to_"; "get_"; "set_"; "is_"; "has_"].

Definition method_score (method : string) : Z :=
  if existsb (String.eqb method) prefer_exact then 0
  else if existsb (PyStr.startswith method) prefer_prefix then 1
  else 5.

(** The [ranked] list before it is sorted. *)
Definition methods_ranked (class_fqname : string) (rows : list entity)
    : list ((Z * Z * string) * entity) :=
  flat_map
    (fun e =>
       let method := _method_name class_fqname (fqname e) in
       if PyStr.has_char dot method then []
       else [((method_score method, start_line e, method), e)])
    rows.

Definition class_methods (s : store) (class_fqname : string) (limit : Z)
    : list entity :=
  map snd
    (py_take (Z.max 1 limit)
       (sorted_by fst cmp_ZZS (methods_ranked class_fqname (method_rows s class_fqname)))).

(** The rows [module_neighbors] fetches. *)
Definition neighbor_rows (s : store) (file' : string) : list entity :=
  sorted_by line_key cmp_ZS
    (List.filter (fun e => String.eqb (file e) file'
                           && existsb (String.eqb (kind e)) ["class"; "function"; "method"])
       (entities s)).

(** The local [_distance] *)
Definition _distance (start_line' end_line' : Z) (row : entity) : Z :=
  let s := start_line row in
  let e := end_line row in
  if e <? start_line' then start_line' - e
  else if s >? end_line' then s - end_line'
  else 0.

(** [kind_rank.get(kind, 9)] *)
Definition kind_rank (k : string) : Z :=
  if String.eqb k "class" then 0
  else if String.eqb k "function" then 0
  else if String.eqb k "method" then 1
  else 9.

(** The [scored] list before it is sorted. *)
Definition neighbors_scored (start_line' end_line' : Z) (exclude_id : option Z)
    (rows : list entity) : list ((Z * Z * Z * string) * entity) :=
  flat_map
    (fun e =>
       match exclude_id with
       | Some x => if id e =? x then [] else
                     [((kind_rank (kind e), _distance start_line' end_line' e,
                        start_line e, fqname e), e)]
       | None => [((kind_rank (kind e), _distance start_line' end_line' e,
                    start_line e, fqname e), e)]
       end)
    rows.

Definition module_neighbors (s : store) (file' : string) (start_line' end_line' : Z)
    (exclude_id : option Z) (limit : Z) : list entity :=
  map snd
    (py_take (Z.max 1 limit)
       (sorted_by fst cmp_ZZZS
          (neighbors_scored start_line' end_line' exclude_id (neighbor_rows s file')))).

End Retrieve.

(** ** The scanner ([core/indexer.py]) *)

Module Indexer.
Import Store.

(** [ast.arguments], the parameter names of each field. *)
Record arguments := Arguments {
  posonlyargs : list string;
  args : list string;
  vararg : option string;
  kwonlyargs : list string;
  kwarg : option string
}.

Record alias := Alias { alias_name : string; asname : option string }.

(** What the scanner reads off a declaration besides its body:
    [node.name], [node.lineno], [node.end_lineno], [ast.get_docstring(node)]
    and [ast.get_source_segment(src, node)]. *)
Record decl := Decl {
  name : string;
  lineno : Z;
  end_lineno : Z;
  doc : option string;
  segment : option string
}.

(** The syntax tree, as far as the scanner looks into it.  The children
    of a node are the nodes that can hold statements, in the order of
    [ast.iter_child_nodes]; expressions hold no statement and are left
    out. *)
Inductive node :=
| Import (names : list alias)
| ImportFrom (module : option string) (names : list alias) (level : Z)
| FunctionDef (is_async : bool) (d : decl) (a : arguments) (body : list node)
| ClassDef (d : decl) (body : list node)
| Other (children : list node).

Definition children (n : node) : list node :=
  match n with
  | FunctionDef _ _ _ body => body
  | ClassDef _ body => body
  | Other cs => cs
  | Import _ | ImportFrom _ _ _ => []
  end.

Fixpoint size (n : node) : nat :=
  let fix sizes (l : list node) : nat :=
    match l with
    | [] => O
    | x :: l' => (size x + sizes l')%nat
    end in
  match n with
  | FunctionDef _ _ _ body => S (sizes body)
  | ClassDef _ body => S (sizes body)
  | Other cs => S (sizes cs)
  | Import _ | ImportFrom _ _ _ => 1%nat
  end.

Definition sizes (l : list node) : nat := foldr (fun n k => (size n + k)%nat) O l.

(** [ast.walk]: a queue, the node at its front is yielded and its
    children join the back. *)
Fixpoint walk_queue (fuel : nat) (todo : list node) : list node :=
  match fuel with
  | O => []
  | S fuel' =>
      match todo with
      | [] => []
      | n :: todo' => n :: walk_queue fuel' (todo' ++ children n)
      end
  end.

Definition walk (tree : node) : list node := walk_queue (size tree) [tree].

(** [_signature] *)
Definition _signature (d : decl) (a : arguments) : string :=
  let l := args a
           ++ (match vararg a with Some v => ["*" +:+ v] | None => [] end)
           ++ kwonlyargs a
           ++ (match kwarg a with Some v => ["**" +:+ v] | None => [] end) in
  name d +:+ "(" +:+ PyStr.join ", " l +:+ ")".

(** [_get_doc] *)
Definition _get_doc (d : option string) : string := default EmptyString d.

Section Scan.
(** [_hash]: the SHA-256 of a text, in hexadecimal. *)
Variable _hash : string -> string.

Definition decl_entity (kind' fq file' sig : string) (d : decl) : index_entity :=
  {| ie_kind := kind'; ie_fqname := fq; ie_file := file';
     ie_start_line := lineno d; ie_end_line := end_lineno d;
     ie_signature := Some sig;
     ie_docstring := Some (_get_doc (doc d));
     ie_summary := None;
     ie_code_hash := _hash (default EmptyString (segment d)) |}.

Definition defines (mod_name fq : string) : relation :=
  {| src := mod_name; rel := "defines"; dst := fq |}.

(** The methods of a class body. *)
Definition scan_methods (mod_name file' fq : string) (body : list node)
    : list (index_entity * relation) :=
  flat_map
    (fun sub =>
       match sub with
       | FunctionDef _ d a _ =>
           let fq2 := fq +:+ "." +:+ name d in
           [(decl_entity "method" fq2 file' (_signature d a) d, defines mod_name fq2)]
       | _ => []
       end)
    body.

(** The loop over [tree.body]. *)
Definition scan_body (mod_name file' : string) (body : list node)
    : list (index_entity * relation) :=
  flat_map
    (fun n =>
       match n with
       | ClassDef d cbody =>
           let fq := mod_name +:+ "." +:+ name d in
           (decl_entity "class" fq file' ("class " +:+ name d) d, defines mod_name fq)
           :: scan_methods mod_name file' fq cbody
       | FunctionDef _ d a _ =>
           let fq := mod_name +:+ "." +:+ name d in
           [(decl_entity "function" fq file' (_signature d a) d, defines mod_name fq)]
       | _ => []
       end)
    body.

(** What one walked node adds to the relations. *)
Definition imports_of_node (mod_name : string) (n : node) : list relation :=
  match n with
  | Import names =>
      map (fun al => {| src := mod_name; rel := "imports"; dst := alias_name al |}) names
  | ImportFrom (Some m) _ _ =>
      if PyStr.is_empty m then []
      else [{| src := mod_name; rel := "imports"; dst := m |}]
  | _ => []
  end.

(** The loop over [ast.walk(tree)]; the module node is [Other body]. *)
Definition scan_imports (mod_name : string) (body : list node) : list relation :=
  flat_map (imports_of_node mod_name) (walk (Other body)).

(** A file under the root: the parts of its path, its path relative to
    the root, its text, and [ast.parse] of it ([None] on a
    [SyntaxError]) with the module docstring. *)
Record source_file := SourceFile {
  parts : list string;
  rel_path : string;
  text : string;
  parsed : option (list node * option string)
}.

Definition skipped_dirs : list string :=
  ["venv"; "env"; "__pycache__"; ".mypy_cache"; ".pytest_cache";
   ".git"; ".idea"; "."; "build"].

Definition is_line_boundary (c : ascii) : bool :=
  PyStr.in_range 10 13 c || PyStr.in_range 28 30 c || (PyStr.code c =? 133)%N.

(** [len(src.splitlines())] *)
Fixpoint count_lines (pending after_cr : bool) (s : string) : Z :=
  match s with
  | EmptyString => if pending then 1 else 0
  | String c s' =>
      if after_cr && (PyStr.code c =? 10)%N then count_lines false false s'
      else if is_line_boundary c
           then 1 + count_lines false (PyStr.code c =? 13)%N s'
           else count_lines true false s'
  end.

(** [rel[:-3].replace("/", ".")] *)
Definition module_name (rel_path : string) : string :=
  PyStr.replace_char "/"%char "."
    (String.substring 0 (String.length rel_path - 3) rel_path).

(** One turn of the loop over the files. *)
Definition index_file (f : source_file) : list index_entity * list relation :=
  if existsb (fun part => existsb (String.eqb part) skipped_dirs) (parts f)
  then ([], [])
  else
    match parsed f with
    | None => ([], [])
    | Some (body, mod_doc) =>
        let mod_name := module_name (rel_path f) in
        let module_entity :=
          {| ie_kind := "module"; ie_fqname := mod_name; ie_file := rel_path f;
             ie_start_line := 1; ie_end_line := count_lines false false (text f);
             ie_signature := Some EmptyString;
             ie_docstring := Some (_get_doc mod_doc);
             ie_summary := None;
             ie_code_hash := _hash (text f) |} in
        let decls := scan_body mod_name (rel_path f) body in
        (module_entity :: map fst decls,
         map snd decls ++ scan_imports mod_name body)
    end.

(** [build_index]: the files come in the order of [root.rglob]. *)
Definition build_index (root : string) (files : list source_file) : index :=
  {| idx_root := root;
     idx_entities := flat_map (fun f => fst (index_file f)) files;
     idx_relations := flat_map (fun f => snd (index_file f)) files |}.
End Scan.

End Indexer.

(** ** The evaluator ([core/eval.py]) *)

Module Evaluator.
Import Store Retrieve Order.

(** One entry of a [relevant] list as it is read from JSON. *)
Inductive relevant_entry :=
| RelStr (s : string)
| RelObj (fqname' kind' : option string)
| RelOther.

(** A field that should hold a list: missing or null, something else
    than a list, or a list. *)
Inductive list_field :=
| Missing
| NotAList
| AList (l : list relevant_entry).

Record qrels_row := QrelsRow {
  q_query : option string;
  q_relevant : list_field;
  q_relevant_fqnames : list_field
}.

Record qrels_item := QrelsItem {
  query : string;
  relevant : list string;
  relevant_kinds : gmap string string
}.

(** The loop of [_normalize_qrels_item] over the entries; [None] is the
    [ValueError]. *)
Fixpoint normalize_relevant (l : list relevant_entry)
    (out : list string) (kinds : gmap string string)
    : option (list string * gmap string string) :=
  match l with
  | [] => Some (out, kinds)
  | RelStr raw :: l' =>
      let fq := PyStr.strip raw in
      normalize_relevant l' (if PyStr.is_empty fq then out else out ++ [fq]) kinds
  | RelObj f k :: l' =>
      let fq := PyStr.strip (default EmptyString f) in
      if PyStr.is_empty fq then None
      else
        let knd := PyStr.strip (default EmptyString k) in
        normalize_relevant l' (out ++ [fq])
          (if PyStr.is_empty knd then kinds else <[fq := knd]> kinds)
  | RelOther :: _ => None
  end.

(** [_normalize_qrels_item]; [None] is the [ValueError]. *)
Definition _normalize_qrels_item (item : qrels_row) : option qrels_item :=
  let query := PyStr.strip (default EmptyString (q_query item)) in
  let relevant := match q_relevant item with
                  | Missing => q_relevant_fqnames item
                  | f => f
                  end in
  match relevant with
  | AList l =>
      '(out, kinds) ← normalize_relevant l [] ∅;
      let relevant := List.filter (fun x => negb (PyStr.is_empty x)) out in
      if PyStr.is_empty query then None
      else if bool_decide (relevant = []) then None
      else Some (QrelsItem query relevant kinds)
  | _ => None
  end.

(** The columns of the index that [UNIQUE(kind, fqname)] makes. *)
Definition unique_index_key (r : entity) : string * string := (kind r, fqname r).

(** The rows of [entities] as a scan of that index gives them.  The
    [SELECT fqname, kind] of [_fetch_entity_kinds] has no [ORDER BY]; its
    two columns are those of the index and its [IN] has no index of its
    own, so SQLite answers it by a scan of the index, in the order of
    (kind, fqname). *)
Definition index_scan (s : store) : list entity :=
  sorted_by unique_index_key (cmp_pair String.compare String.compare) (entities s).

(** [_fetch_entity_kinds]: a later row of the same fqname replaces an
    earlier one in the dictionary. *)
Definition _fetch_entity_kinds (s : store) (fqnames : gset string) : gmap string string :=
  if bool_decide (fqnames = ∅) then ∅
  else
    foldl (fun m r => if bool_decide (fqname r ∈ fqnames)
                      then <[fqname r := kind r]> m else m)
      ∅ (index_scan s).

(** [a or b] on two looked-up kinds. *)
Definition kind_or (a b : option string) : option string :=
  match a with
  | Some k => if PyStr.is_empty k then b else Some k
  | None => b
  end.

Definition of_nat (n : nat) : float := PrimFloat.of_uint63 (Uint63.of_Z (Z.of_nat n)).

Record detail := Detail {
  d_query : string;
  relevant_count : nat;
  eligible_relevant_count : nat;
  retrieved_count : nat;
  matched_count : nat;
  eligible_matched_count : nat;
  recall_at_k : float;
  hit_at_k : float;
  matched_fqnames : list string;
  excluded_relevant_by_kinds : list (string * string)
}.

Record report := Report {
  r_k : Z;
  r_retriever : string;
  r_kinds : option (list string);
  num_queries : nat;
  r_recall_at_k : float;
  hit_rate_at_k : float;
  warnings : list string;
  details : list detail
}.

Inductive result :=
| Ok (r : report)
| ValueError
| EngineError (e : engine_reply).

(** [if kinds:] *)
Definition kinds_given (kinds : option (list string)) : bool :=
  match kinds with
  | Some (_ :: _) => true
  | _ => false
  end.

(** [sorted(x)] for a set of strings. *)
Definition sorted_set (x : gset string) : list string :=
  sorted_by (fun v => v) String.compare (elements x).

(** [knd in allowed] *)
Definition kind_allowed (allowed : gset string) (knd : option string) : bool :=
  match knd with
  | Some k => bool_decide (k ∈ allowed)
  | None => false
  end.

(** The loop [for fq in sorted(relevant)] that fills [eligible_relevant]
    and [excluded_relevant]. *)
Fixpoint split_eligible (allowed : gset string) (kind_map : string -> option string)
    (fqs : list string) (eligible : gset string) (excluded : list (string * string))
    : gset string * list (string * string) :=
  match fqs with
  | [] => (eligible, excluded)
  | fq :: fqs' =>
      let knd := kind_map fq in
      if kind_allowed allowed knd
      then split_eligible allowed kind_map fqs' ({[fq]} ∪ eligible) excluded
      else split_eligible allowed kind_map fqs' eligible
             (excluded ++ [(fq, default "unknown" (kind_or knd None))])
  end.

Section Evaluate.
(** The f-string of the warning: the query, the two counts and the
    kinds in. *)
Variable format_warning : string -> nat -> nat -> list string -> string.

Variable s : store.
Variable fts : fts_engine.

(** The retriever call of one query: the fqnames returned, or the
    exception of the engine. *)
Definition run_retriever (retriever : string) (q : string) (k : Z)
    (kinds : option (list string)) : engine_reply + list string :=
  if String.eqb retriever "search" then
    match snd (search fts q k kinds) with
    | Results rows => inr (map (fun r => fqname (fst r)) (py_take k rows))
    | Raised e => inl e
    end
  else inr (map (fun r => fqname (fst r)) (py_take k (lookup_symbol s q k kinds))).

Record acc := Acc {
  a_details : list detail;
  a_warnings : list string;
  recall_sum : float;
  hit_sum : float
}.

(** One turn of the second loop of [evaluate_recall_at_k]. *)
Definition step (db_kinds : gmap string string) (k : Z) (retriever : string)
    (kinds : option (list string)) (item : qrels_item) (a : acc)
    : engine_reply + acc :=
  let relevant : gset string := list_to_set (relevant item) in
  let kind_map := fun fq => kind_or (relevant_kinds item !! fq) (db_kinds !! fq) in
  let '(eligible, excluded) :=
    if kinds_given kinds
    then split_eligible (list_to_set (default [] kinds)) kind_map
           (sorted_set relevant) ∅ []
    else (relevant, []) in
  let warnings' :=
    if kinds_given kinds && negb (bool_decide (excluded = []))
    then a_warnings a ++ [format_warning (query item) (length excluded)
                            (size relevant) (default [] kinds)]
    else a_warnings a in
  match run_retriever retriever (query item) k kinds with
  | inl e => inl e
  | inr returned =>
      let returned_set : gset string := list_to_set returned in
      let eligible_matched := sorted_set (eligible ∩ returned_set) in
      let eligible_relevant_count := size eligible in
      let recall :=
        if bool_decide (eligible_relevant_count = O) then 0%float
        else (of_nat (length eligible_matched) / of_nat eligible_relevant_count)%float in
      let hit := if bool_decide (eligible_matched = []) then 0%float else 1%float in
      inr {| a_details := a_details a ++
               [{| d_query := query item;
                   relevant_count := size relevant;
                   eligible_relevant_count := eligible_relevant_count;
                   retrieved_count := length returned;
                   matched_count := length eligible_matched;
                   eligible_matched_count := length eligible_matched;
                   recall_at_k := recall;
                   hit_at_k := hit;
                   matched_fqnames := eligible_matched;
                   excluded_relevant_by_kinds := excluded |}];
             a_warnings := warnings';
             recall_sum := (recall_sum a + recall)%float;
             hit_sum := (hit_sum a + hit)%float |}
  end.

Fixpoint loop (db_kinds : gmap string string) (k : Z) (retriever : string)
    (kinds : option (list string)) (items : list qrels_item) (a : acc)
    : engine_reply + acc :=
  match items with
  | [] => inr a
  | item :: items' =>
      match step db_kinds k retriever kinds item a with
      | inl e => inl e
      | inr a' => loop db_kinds k retriever kinds items' a'
      end
  end.

(** [evaluate_recall_at_k] *)
Definition evaluate_recall_at_k (qrels : list qrels_row) (k : Z)
    (retriever : string) (kinds : option (list string)) : result :=
  if k <=? 0 then ValueError
  else if negb (String.eqb retriever "search" || String.eqb retriever "lookup")
  then ValueError
  else
    match mapM _normalize_qrels_item qrels with
    | None => ValueError
    | Some items =>
        let all_relevant : gset string :=
          foldl (fun acc item => acc ∪ list_to_set (relevant item)) ∅ items in
        let db_kinds := _fetch_entity_kinds s all_relevant in
        match loop db_kinds k retriever kinds items (Acc [] [] 0%float 0%float) with
        | inl e => EngineError e
        | inr a =>
            let n := length (a_details a) in
            Ok {| r_k := k;
                  r_retriever := retriever;
                  r_kinds := if kinds_given kinds then kinds else None;
                  num_queries := n;
                  r_recall_at_k := if bool_decide (n = O) then 0%float
                                   else (recall_sum a / of_nat n)%float;
                  hit_rate_at_k := if bool_decide (n = O) then 0%float
                                   else (hit_sum a / of_nat n)%float;
                  warnings := sorted_set (list_to_set (a_warnings a));
                  details := a_details a |}
        end
    end.
End Evaluate.

End Evaluator.

(** ** The entities still to summarise: [get_entities_needing_summary] of
    [db/sqlite.py] and [write_summary_error_cur] of [core/summarize.py] *)

Module Summaries.
Import Store Order.

Definition default_kinds : list string := ["module"; "class"; "function"; "method"].

(** [kinds or [...]]: [None] and the empty list are both falsy. *)
Definition kinds_or_default (kinds : option (list string)) : list string :=
  match kinds with
  | Some (k :: ks) => k :: ks
  | _ => default_kinds
  end.

(** [summary IS NULL OR summary = ''] *)
Definition summary_missing (r : entity) : bool :=
  match summary r with
  | None => true
  | Some t => String.eqb t EmptyString
  end.

(** [kind IN (?, ..., ?)] *)
Definition kind_in (kinds : list string) (r : entity) : bool :=
  existsb (String.eqb (kind r)) kinds.

Definition cmp_SS : string * string -> string * string -> comparison :=
  cmp_pair String.compare String.compare.

(** [ORDER BY kind, fqname] *)
Definition todo_key (r : entity) : string * string := (kind r, fqname r).

Definition get_entities_needing_summary (s : store) (kinds : option (list string))
    (limit : Z) : list entity :=
  let kinds := kinds_or_default kinds in
  sql_limit limit
    (sorted_by todo_key cmp_SS
       (List.filter (fun r => summary_missing r && kind_in kinds r) (entities s))).

(** The row after [UPDATE entities SET summary_error=?, updated_at=...];
    the error is cut by [err[:500]]. *)
Definition set_error (now err : string) (r : entity) : entity :=
  {| id := id r; kind := kind r; fqname := fqname r; file := file r;
     start_line := start_line r; end_line := end_line r;
     signature := signature r; docstring := docstring r;
     summary := summary r;
     summary_hash := summary_hash r;
     code_truncated := code_truncated r;
     summary_prompt_tokens := summary_prompt_tokens r;
     summary_coverage := summary_coverage r;
     summary_backend := summary_backend r;
     summary_error := Some (String.substring 0 500 err);
     code_hash := code_hash r;
     updated_at := Some now |}.

(** [write_summary_error_cur]: no rowcount is looked at. *)
Definition write_summary_error_cur (now : string) (entity_id : Z) (err : string)
    (s : store) : store :=
  with_entities s
    (map (fun r => if has_id entity_id r then set_error now err r else r)
       (entities s)).

End Summaries.

(** ** The fixtures of the test suite, to run the model on *)

Module Fixtures.
Import Store.

Definition row (i : Z) (k fq f : string) (a b : Z) (sig summ h : string) : entity :=
  {| id := i; kind := k; fqname := fq; file := f; start_line := a; end_line := b;
     signature := sig; docstring := Some EmptyString; summary := Some summ;
     summary_hash := None; code_truncated := Some 0;
     summary_prompt_tokens := None; summary_coverage := None;
     summary_backend := None; summary_error := None;
     code_hash := h; updated_at := Some "2026-01-01 00:00:00" |}.

(** [pkg.mod.fn] and [pkg.mod.C] of [tests/test_db_and_retrieve.py]. *)
Definition row_fn : entity :=
  row 1 "function" "pkg.mod.fn" "pkg/mod.py" 1 2 "fn(x)" "adds one" "h1".
Definition row_C : entity :=
  row 2 "class" "pkg.mod.C" "pkg/mod.py" 1 2 "class C" EmptyString "h2".

Definition store_of (rows : list entity) : store :=
  {| entities := rows; relations := []; entities_fts := rebuild_fts rows |}.

Definition test_store : store := store_of [row_fn; row_C].

(** [pkg.mod.fn] after a failed attempt to summarize it. *)
Definition row_fn_failed : entity :=
  {| id := 1; kind := "function"; fqname := "pkg.mod.fn"; file := "pkg/mod.py";
     start_line := 1; end_line := 2; signature := "fn(x)";
     docstring := Some EmptyString; summary := Some EmptyString;
     summary_hash := None; code_truncated := Some 0;
     summary_prompt_tokens := None; summary_coverage := None;
     summary_backend := None; summary_error := Some "timeout";
     code_hash := "h1"; updated_at := Some "2026-01-01 00:00:00" |}.

Definition failed_store : store := store_of [row_fn_failed; row_C].

(** [pkg.mod.fn] as a later scan of an edited file finds it. *)
Definition fn_rescanned : index_entity :=
  {| ie_kind := "function"; ie_fqname := "pkg.mod.fn"; ie_file := "pkg/mod.py";
     ie_start_line := 3; ie_end_line := 9; ie_signature := Some "fn(x, y)";
     ie_docstring := Some "Adds."; ie_summary := None; ie_code_hash := "h9" |}.

Definition rescan : index :=
  {| idx_root := "/src"; idx_entities := [fn_rescanned]; idx_relations := [] |}.

Definition noon (i : nat) : string := "2026-06-01 12:00:00".

(** The six entities of [tests/test_resolve.py]. *)
Definition row_plain (i : Z) (k fq : string) (a b : Z) (sig : string) : entity :=
  row i k fq "pkg/mod.py" a b sig EmptyString "h".

Definition resolve_C : entity := row_plain 1 "class" "pkg.mod.C" 1 11 "class C".
Definition resolve_init : entity :=
  row_plain 2 "method" "pkg.mod.C.__init__" 4 5 "__init__(self, x)".
Definition resolve_get_x : entity :=
  row_plain 3 "method" "pkg.mod.C.get_x" 7 8 "get_x(self)".
Definition resolve_helper : entity :=
  row_plain 4 "method" "pkg.mod.C.helper" 10 11 "helper(self)".
Definition resolve_nearby : entity :=
  row_plain 5 "function" "pkg.mod.nearby" 13 14 "nearby()".
Definition resolve_farther : entity :=
  row_plain 6 "function" "pkg.mod.farther" 16 17 "farther()".

Definition resolve_store : store :=
  store_of [resolve_C; resolve_init; resolve_get_x; resolve_helper;
            resolve_nearby; resolve_farther].

(** A class whose [__init__] is declared after another method. *)
Definition late_helper : entity :=
  row_plain 2 "method" "pkg.mod.C.helper" 2 3 "helper(self)".
Definition late_init : entity :=
  row_plain 3 "method" "pkg.mod.C.__init__" 5 6 "__init__(self)".
Definition late_init_store : store := store_of [resolve_C; late_helper; late_init].



(** A query with one quote, which nothing closes. *)
Definition unbalanced_query : string := String Retrieve.dquote "abc".

(** The replies of the full-text engine to the expressions that [search]
    can send for [unbalanced_query], on an index where nothing matches:
    the query as it is holds a string without its end, which the engine
    refuses in these words; any other expression, the query escaped as a
    phrase among them, finds nothing. *)
Definition unterminated_engine : Retrieve.fts_engine :=
  fun expr _ _ =>
    if String.eqb expr unbalanced_query
    then Retrieve.OperationalError "unterminated string"
    else Retrieve.Rows [].

(** An engine that takes a quoted phrase only, and finds nothing. *)
Definition phrase_only_engine : Retrieve.fts_engine :=
  fun expr _ _ =>
    match expr with
    | String c _ => if Ascii.eqb c Retrieve.dquote then Retrieve.Rows []
                    else Retrieve.OperationalError "fts5: syntax error near x"
    | EmptyString => Retrieve.OperationalError "fts5: syntax error near x"
    end.

(** The three entities of the tiering example. *)
Definition tier_mod_fn : entity := row_plain 1 "function" "pkg.mod.fn" 1 2 "fn(x)".
Definition tier_sub_fn : entity := row_plain 2 "function" "pkg.sub.fn" 1 2 "fn(x)".
Definition tier_fnx : entity := row_plain 3 "function" "pkg.fnx" 1 2 "fnx(x)".

Definition tier_store : store := store_of [tier_mod_fn; tier_sub_fn; tier_fnx].

(** A function whose name is in capitals. *)
Definition tier_caps : entity := row_plain 1 "function" "pkg.mod.FN" 1 2 "FN(x)".

Definition caps_store : store := store_of [tier_caps].

(** [def f(a, /, b): ...] *)
Definition posonly_decl : Indexer.decl :=
  {| Indexer.name := "f"; Indexer.lineno := 1; Indexer.end_lineno := 2;
     Indexer.doc := None; Indexer.segment := None |}.
Definition posonly_args : Indexer.arguments :=
  {| Indexer.posonlyargs := ["a"]; Indexer.args := ["b"]; Indexer.vararg := None;
     Indexer.kwonlyargs := []; Indexer.kwarg := None |}.

(** [def f(a, *args, **kwargs): ...] of [tests/test_indexer.py]. *)
Definition test_f_args : Indexer.arguments :=
  {| Indexer.posonlyargs := []; Indexer.args := ["a"]; Indexer.vararg := Some "args";
     Indexer.kwonlyargs := []; Indexer.kwarg := Some "kwargs" |}.

(** A file that says [import os] and, inside a function,
    [from os import path]. *)
Definition os_twice : list Indexer.node :=
  [Indexer.Import [Indexer.Alias "os" None];
   Indexer.FunctionDef false posonly_decl posonly_args
     [Indexer.ImportFrom (Some "os") [Indexer.Alias "path" None] 0]].




(** A function and a class of one fqname, the function indexed first. *)
Definition twin_fn : entity :=
  row 1 "function" "pkg.x" "pkg/x.py" 1 2 "x()" EmptyString "h1".
Definition twin_class : entity :=
  row 2 "class" "pkg.x" "pkg/x.py" 4 5 "class x" EmptyString "h2".
Definition twin_store : store := store_of [twin_fn; twin_class].

Definition twin_qrels : list Evaluator.qrels_row :=
  [{| Evaluator.q_query := Some "x";
      Evaluator.q_relevant := Evaluator.AList [Evaluator.RelStr "pkg.x"];
      Evaluator.q_relevant_fqnames := Evaluator.Missing |}].

Definition plain_warning (q : string) (excluded total : nat) (kinds : list string) : string :=
  "Query " +:+ q.

Definition silent_engine : Retrieve.fts_engine := fun _ _ _ => Retrieve.Rows [].

End Fixtures.

(** ** The vocabulary of the specification

    What the specification says in words, as predicates and functions on
    the model, to state the properties with. *)

Module Spec.
Import Store Retrieve Order.

(** The summary fields of a row are those of another. *)
Definition summary_fields_kept (r r' : entity) : Prop :=
  summary r' = summary r
  /\ summary_hash r' = summary_hash r
  /\ code_truncated r' = code_truncated r
  /\ summary_prompt_tokens r' = summary_prompt_tokens r
  /\ summary_coverage r' = summary_coverage r
  /\ summary_backend r' = summary_backend r
  /\ summary_error r' = summary_error r.

(** The scanned fields of a row are those of an index entity written at
    time [now]: the signature and the docstring are the scanned ones, and
    the empty string where the scan has none. *)
Definition refreshed_from (now : string) (e : index_entity) (r' : entity) : Prop :=
  file r' = ie_file e
  /\ start_line r' = ie_start_line e
  /\ end_line r' = ie_end_line e
  /\ signature r' = match ie_signature e with Some sig => sig | None => EmptyString end
  /\ docstring r' = Some match ie_docstring e with Some doc => doc | None => EmptyString end
  /\ code_hash r' = ie_code_hash e
  /\ updated_at r' = Some now.





(** [a] is strictly before [b] as text. *)
Definition text_lt (a b : string) : Prop := String.compare a b = Lt.


(** *** The three tiers *)

(** A text with its ASCII letters folded, as [LIKE] compares. *)
Fixpoint fold_string (s : string) : string :=
  match s with
  | EmptyString => EmptyString
  | String c s' => String (Sql.fold_case c) (fold_string s')
  end.

(** The name holds none of the two wild cards of [LIKE]. *)
Definition no_wildcard (p : string) : bool :=
  PyStr.all_chars
    (fun c => negb (Ascii.eqb c Sql.percent) && negb (Ascii.eqb c Sql.underscore)) p.

(** [f] ends with [t], up to ASCII case. *)
Definition ends_with_up_to_case (f t : string) : Prop :=
  exists pre suf, f = pre +:+ suf /\ fold_string t = fold_string suf.

(** [t] occurs in [f], up to ASCII case. *)
Definition occurs_up_to_case (f t : string) : Prop :=
  exists pre mid suf, f = pre +:+ mid +:+ suf /\ fold_string t = fold_string mid.

(** An entity passes the allow-list of kinds as the caller gives it: there
    is no list, or no entry of the list is left once it is trimmed, or the
    kind of the entity is an entry of the list, trimmed. *)
Definition passes_allow_list (kinds : option (list string)) (e : entity) : Prop :=
  match kinds with
  | None => True
  | Some ks =>
      (forall k, k ∈ ks -> PyStr.strip k = EmptyString)
      \/ (exists k, k ∈ ks /\ PyStr.strip k <> EmptyString /\ kind e = PyStr.strip k)
  end.

(** The best tier of an entity, as the code tests the tiers. *)
Definition best_tier (name : string) (e : entity) : option Z :=
  if tier0 name e then Some 0
  else if tier1 name e then Some 1
  else if tier2 name e then Some 2
  else None.

(** The order of the answer in words: tier ascending, then kind
    ascending, then fqname ascending. *)
Definition row_no_later (a b : entity * Z) : Prop :=
  snd a < snd b
  \/ (snd a = snd b
      /\ (text_lt (kind (fst a)) (kind (fst b))
          \/ (kind (fst a) = kind (fst b)
              /\ (text_lt (fqname (fst a)) (fqname (fst b))
                  \/ fqname (fst a) = fqname (fst b))))).

(** [s.endswith(t)] *)
Fixpoint endswith (s t : string) : bool :=
  String.eqb s t ||
  match s with
  | EmptyString => false
  | String _ s' => endswith s' t
  end.

(** The tiers as the specification words them: equal to the name, ending
    with a dot and the name, holding the name. *)
Definition claimed_tier (name : string) (e : entity) : option Z :=
  if String.eqb (fqname e) name then Some 0
  else if endswith (fqname e) ("." +:+ name) then Some 1
  else if PyStr.contains name (fqname e) then Some 2
  else None.

(** The answer as the specification words it: every matching entity
    once, at its best tier. *)
Definition claimed_lookup (s : store) (name : string) (limit : Z)
    (kinds : option (list string)) : list (entity * Z) :=
  sql_limit limit
    (sorted_by row_key cmp_ZSS
       (flat_map
          (fun e =>
             match claimed_tier name e with
             | Some r => if kind_clause (_normalize_kinds kinds) e then [(e, r)] else []
             | None => []
             end)
          (entities s))).

(** *** The scanner *)

(** The parameters of a declaration as the specification lists them: all
    the positional ones in declaration order, the variadic-positional
    marker, the keyword-only ones, the variadic-keyword marker. *)
Definition claimed_params (a : Indexer.arguments) : list string :=
  Indexer.posonlyargs a ++ Indexer.args a
  ++ (match Indexer.vararg a with Some v => ["*" +:+ v] | None => [] end)
  ++ Indexer.kwonlyargs a
  ++ (match Indexer.kwarg a with Some v => ["**" +:+ v] | None => [] end).

Definition claimed_signature (d : Indexer.decl) (a : Indexer.arguments) : string :=
  Indexer.name d +:+ "(" +:+ PyStr.join ", " (claimed_params a) +:+ ")".

(** Every node of a tree, the tree itself first, each once. *)
Fixpoint all_nodes (n : Indexer.node) : list Indexer.node :=
  let fix below (l : list Indexer.node) : list Indexer.node :=
    match l with
    | [] => []
    | x :: l' => all_nodes x ++ below l'
    end in
  n :: match n with
       | Indexer.FunctionDef _ _ _ body => below body
       | Indexer.ClassDef _ body => below body
       | Indexer.Other cs => below cs
       | Indexer.Import _ | Indexer.ImportFrom _ _ _ => []
       end.

(** The module names one import statement refers to: every name of an
    [import] statement, the module of a [from ... import] statement that
    names one. *)
Definition imported_modules (n : Indexer.node) : list string :=
  match n with
  | Indexer.Import names => map Indexer.alias_name names
  | Indexer.ImportFrom (Some m) _ _ => if PyStr.is_empty m then [] else [m]
  | _ => []
  end.

(** Every reference to an imported module anywhere in a file, one entry
    for each. *)
Definition import_references (body : list Indexer.node) : list string :=
  flat_map imported_modules (all_nodes (Indexer.Other body)).

Definition imports_relation (mod_name m : string) : relation :=
  {| src := mod_name; rel := "imports"; dst := m |}.

(** *** The query normalizer *)





(** *** The patterns of the normalizer, in words *)

(** A text of white space only. *)
Definition blank (w : string) : Prop := PyStr.all_chars PyStr.isspace w = true.

(** A module path: a letter or an underscore, then word characters and
    dots. *)
Definition module_path (m : string) : Prop :=
  exists c m',
    m = String c m' /\ is_ident_start c = true
    /\ PyStr.all_chars is_word_or_dot m' = true.

(** What stops a run of characters of a class: the end of the text, or a
    character outside the class. *)
Definition stops (p : ascii -> bool) (b : string) : Prop :=
  match b with
  | EmptyString => True
  | String c _ => p c = false
  end.


(** The text does not go on with a character of a module path: a path
    before it is the longest at its place. *)
Definition path_ends (rest : string) : Prop := stops is_word_or_dot rest.


(** The [import] pattern on [raw], with its group [m]: white space if
    any, the word [import], white space, and the longest module path
    there; what follows is free. *)
Definition import_shape (raw m : string) : Prop :=
  exists lead ws rest,
    raw = lead +:+ "import" +:+ ws +:+ m +:+ rest
    /\ blank lead /\ blank ws /\ ws <> EmptyString
    /\ module_path m /\ path_ends rest.









(** *** The evaluator *)









(** *** The related entities *)

(** The method names that [class_methods] ranks first, and the beginnings
    of names that it ranks second. *)
Definition preferred_names : list string :=
  ["__init__"; "from_dict"; "as_dict"; "to_dict"; "from_json"; "to_json"].

Definition preferred_prefixes : list string :=
  ["from_"; "as_"; "to_"; "get_"; "set_"; "is_"; "has_"].

(** The score of a method name in words: 0 for a preferred name, 1 for
    another name that begins with a preferred prefix, 5 for the rest. *)
Inductive method_rank (m : string) : Z -> Prop :=
| rank_name : m ∈ preferred_names -> method_rank m 0
| rank_prefix p :
    m ∉ preferred_names -> p ∈ preferred_prefixes -> String.prefix p m = true ->
    method_rank m 1
| rank_other :
    m ∉ preferred_names ->
    (forall p, p ∈ preferred_prefixes -> String.prefix p m = false) ->
    method_rank m 5.

(** An entity that [class_methods] ranks: a fetched row whose name after
    the class has no dot. *)
Definition eligible_method (s : store) (cls : string) (e : entity) : Prop :=
  e ∈ method_rows s cls
  /\ PyStr.has_char dot (_method_name cls (fqname e)) = false.

(** The order of [class_methods] in words: the score, then the line the
    method starts at, then its name, all ascending. *)
Definition method_no_later (cls : string) (a b : entity) : Prop :=
  let ma := _method_name cls (fqname a) in
  let mb := _method_name cls (fqname b) in
  exists sa sb,
    method_rank ma sa /\ method_rank mb sb
    /\ (sa < sb
        \/ (sa = sb
            /\ (start_line a < start_line b
                \/ (start_line a = start_line b /\ (text_lt ma mb \/ ma = mb))))).

(** An entity that [module_neighbors] ranks: a class, function or method
    of the file, other than the excluded one. *)
Definition eligible_neighbor (s : store) (f : string) (exclude_id : option Z)
    (e : entity) : Prop :=
  e ∈ entities s /\ file e = f
  /\ kind e ∈ ["class"; "function"; "method"]
  /\ exclude_id <> Some (id e).

(** Classes and functions come before methods. *)
Inductive neighbor_rank (e : entity) : Z -> Prop :=
| rank_class : kind e = "class" -> neighbor_rank e 0
| rank_function : kind e = "function" -> neighbor_rank e 0
| rank_method : kind e = "method" -> neighbor_rank e 1.

(** The lines between an entity and the span from [a] to [b]: from its
    end to [a] when it ends before [a]; else from [b] to its start when
    it starts after [b]; else none. *)
Inductive line_gap (a b : Z) (e : entity) : Z -> Prop :=
| gap_before : end_line e < a -> line_gap a b e (a - end_line e)
| gap_after : a <= end_line e -> b < start_line e -> line_gap a b e (start_line e - b)
| gap_none : a <= end_line e -> start_line e <= b -> line_gap a b e 0.

(** The order of [module_neighbors] in words: the rank of the kind, then
    the gap, then the start line, then the fqname, all ascending. *)
Definition neighbor_no_later (a b : Z) (x y : entity) : Prop :=
  exists kx ky dx dy,
    neighbor_rank x kx /\ neighbor_rank y ky
    /\ line_gap a b x dx /\ line_gap a b y dy
    /\ (kx < ky
        \/ (kx = ky
            /\ (dx < dy
                \/ (dx = dy
                    /\ (start_line x < start_line y
                        \/ (start_line x = start_line y
                            /\ (text_lt (fqname x) (fqname y)
                                \/ fqname x = fqname y))))))).

End Spec.

(** ** What the schema promises of a table, and rows up to their time *)

Module Wellformed.
Import Store.

(** The columns of [UNIQUE(kind, fqname)]. *)
Definition entity_key (r : entity) : string * string := (kind r, fqname r).

Definition index_key (e : index_entity) : string * string := (ie_kind e, ie_fqname e).

Definition unique_keys (rows : list entity) : Prop := NoDup (map entity_key rows).

(** [id INTEGER PRIMARY KEY] *)
Definition unique_ids (rows : list entity) : Prop := NoDup (map id rows).

(** A row without its [updated_at]. *)
Definition forget_time (r : entity) : entity :=
  {| id := id r; kind := kind r; fqname := fqname r; file := file r;
     start_line := start_line r; end_line := end_line r;
     signature := signature r; docstring := docstring r;
     summary := summary r;
     summary_hash := summary_hash r;
     code_truncated := code_truncated r;
     summary_prompt_tokens := summary_prompt_tokens r;
     summary_coverage := summary_coverage r;
     summary_backend := summary_backend r;
     summary_error := summary_error r;
     code_hash := code_hash r;
     updated_at := None |}.

End Wellformed.

(** * Properties *)

(** ** Orders and sorting *)

Module OrderFacts.
Import Order.

Lemma cmp_eq_r {A} (cmp : A -> A -> comparison) `{!CmpLaws cmp} a b c :
  cmp b c = Eq -> cmp a b = cmp a c.
Proof.
  intros H. rewrite (cmp_antisym b a), (cmp_antisym c a).
  f_equal. by apply cmp_eq_l.
Qed.

Lemma cmp_refl {A} (cmp : A -> A -> comparison) `{!CmpLaws cmp} a : cmp a a = Eq.
Proof. pose proof (cmp_antisym a a) as H. destruct (cmp a a); done. Qed.

#[global] Instance Z_compare_laws : CmpLaws Z.compare.
Proof.
  split.
  - intros a b. apply Z.compare_antisym.
  - intros a b c H. apply Z.compare_eq in H. by subst.
  - intros a b c. rewrite !Z.compare_lt_iff. lia.
Qed.

#[global] Instance Q_compare_laws : CmpLaws Qcompare.
Proof.
  split.
  - intros a b. symmetry. apply Qcompare_antisym.
  - intros a b c H. apply Qeq_alt in H. by rewrite H.
  - intros a b c. rewrite <- !Qlt_alt. apply Qlt_trans.
Qed.

Lemma ascii_compare_lt_trans a b c :
  Ascii.compare a b = Lt -> Ascii.compare b c = Lt -> Ascii.compare a c = Lt.
Proof. unfold Ascii.compare. rewrite !N.compare_lt_iff. lia. Qed.

Lemma string_compare_lt_trans a : forall b c,
  String.compare a b = Lt -> String.compare b c = Lt -> String.compare a c = Lt.
Proof.
  induction a as [|x a IH]; intros [|y b] [|z c]; simpl; try done.
  destruct (Ascii.compare x y) eqn:Hxy; try done;
    destruct (Ascii.compare y z) eqn:Hyz; try done; intros H1 H2.
  - apply Ascii.compare_eq_iff in Hxy, Hyz. subst.
    rewrite (proj2 (N.compare_eq_iff _ _) eq_refl : Ascii.compare z z = Eq). eauto.
  - apply Ascii.compare_eq_iff in Hxy. subst. by rewrite Hyz.
  - apply Ascii.compare_eq_iff in Hyz. subst. by rewrite Hxy.
  - by rewrite (ascii_compare_lt_trans _ _ _ Hxy Hyz).
Qed.

#[global] Instance string_compare_laws : CmpLaws String.compare.
Proof.
  split.
  - intros a b. apply String.compare_antisym.
  - intros a b c H. apply String.compare_eq_iff in H. by subst.
  - intros a b c. apply string_compare_lt_trans.
Qed.

#[global] Instance cmp_pair_laws {A B} (ca : A -> A -> comparison)
    (cb : B -> B -> comparison) `{!CmpLaws ca, !CmpLaws cb} : CmpLaws (cmp_pair ca cb).
Proof.
  split; unfold cmp_pair, lex.
  - intros [a1 b1] [a2 b2]; simpl.
    rewrite (cmp_antisym (cmp:=ca) a1 a2), (cmp_antisym (cmp:=cb) b1 b2).
    by destruct (ca a1 a2).
  - intros [a1 b1] [a2 b2] [a3 b3]; simpl.
    destruct (ca a1 a2) eqn:Ha; try done. intros Hb.
    rewrite (cmp_eq_l _ _ a3 Ha), (cmp_eq_l _ _ b3 Hb). done.
  - intros [a1 b1] [a2 b2] [a3 b3]; simpl.
    destruct (ca a1 a2) eqn:H12; try done; destruct (ca a2 a3) eqn:H23; try done;
      intros Hb1 Hb2.
    + rewrite (cmp_eq_l _ _ a3 H12), H23. exact (cmp_lt_trans _ _ _ Hb1 Hb2).
    + by rewrite (cmp_eq_l _ _ a3 H12), H23.
    + by rewrite <- (cmp_eq_r ca a1 _ _ H23), H12.
    + by rewrite (cmp_lt_trans _ _ _ H12 H23).
Qed.

Section SortFacts.
Context {A K : Type} (key : A -> K) (cmp : K -> K -> comparison) `{!CmpLaws cmp}.

Lemma key_leb_total a b : key_leb key cmp a b = true \/ key_leb key cmp b a = true.
Proof.
  unfold key_leb, leb_of. rewrite (cmp_antisym (key a) (key b)).
  destruct (cmp (key a) (key b)); simpl; auto.
Qed.

Lemma key_leb_trans a b c :
  key_leb key cmp a b = true -> key_leb key cmp b c = true -> key_leb key cmp a c = true.
Proof.
  unfold key_leb, leb_of.
  destruct (cmp (key a) (key b)) eqn:H1; try done;
    destruct (cmp (key b) (key c)) eqn:H2; try done; intros _ _.
  - by rewrite (cmp_eq_l _ _ _ H1), H2.
  - by rewrite (cmp_eq_l _ _ _ H1), H2.
  - by rewrite <- (cmp_eq_r cmp _ _ _ H2), H1.
  - by rewrite (cmp_lt_trans _ _ _ H1 H2).
Qed.

Lemma insert_sorted_perm x l : insert_sorted key cmp x l ≡ₚ x :: l.
Proof.
  induction l as [|y l IH]; simpl; [done|].
  destruct (key_leb key cmp x y); [done|].
  rewrite IH. apply perm_swap.
Qed.

Lemma sorted_by_perm l : sorted_by key cmp l ≡ₚ l.
Proof.
  induction l as [|x l IH]; simpl; [done|].
  rewrite insert_sorted_perm. by rewrite IH.
Qed.

Lemma sorted_by_length l : length (sorted_by key cmp l) = length l.
Proof. by rewrite sorted_by_perm. Qed.

Lemma sorted_by_elem x l : x ∈ sorted_by key cmp l <-> x ∈ l.
Proof. by rewrite sorted_by_perm. Qed.

Lemma insert_sorted_sorted x l :
  StronglySorted (key_le key cmp) l -> StronglySorted (key_le key cmp) (insert_sorted key cmp x l).
Proof.
  induction 1 as [|y l Hl IH Hy]; simpl.
  - repeat constructor.
  - destruct (key_leb key cmp x y) eqn:Hxy.
    + constructor; [by constructor|].
      constructor; [done|].
      eapply Forall_impl; [exact Hy|]. intros z Hz.
      unfold key_le in *. eauto using key_leb_trans.
    + constructor; [done|].
      rewrite insert_sorted_perm. constructor; [|done].
      unfold key_le. destruct (key_leb_total x y) as [?|?]; [congruence|done].
Qed.

Lemma sorted_by_sorted l : StronglySorted (key_le key cmp) (sorted_by key cmp l).
Proof.
  induction l as [|x l IH]; simpl; [constructor|].
  by apply insert_sorted_sorted.
Qed.


(** Sorting is stable: the elements of one key keep their order. *)
Lemma insert_sorted_stable (p : A -> bool) x l :
  (forall y, y ∈ l -> p x = true -> p y = true -> key_leb key cmp x y = true) ->
  List.filter p (insert_sorted key cmp x l) = List.filter p (x :: l).
Proof.
  induction l as [|y l IH]; intros H; [done|].
  simpl. destruct (key_leb key cmp x y) eqn:Hxy; [done|].
  simpl. rewrite IH by (intros; apply H; [by right|done..]).
  simpl. destruct (p x) eqn:Hx, (p y) eqn:Hy; try done.
  rewrite H in Hxy; [done|by left|done..].
Qed.

Lemma sorted_by_stable k l :
  List.filter (fun a => bool_decide (cmp (key a) k = Eq)) (sorted_by key cmp l)
  = List.filter (fun a => bool_decide (cmp (key a) k = Eq)) l.
Proof.
  induction l as [|x l IH]; [done|].
  change (sorted_by key cmp (x :: l)) with (insert_sorted key cmp x (sorted_by key cmp l)).
  rewrite insert_sorted_stable.
  - simpl. by rewrite IH.
  - intros y _ Hx Hy. apply bool_decide_eq_true in Hx, Hy.
    unfold key_leb, leb_of.
    rewrite (cmp_eq_l _ _ (key y) Hx), (cmp_antisym (key y) k), Hy. done.
Qed.
End SortFacts.


Lemma py_take_nonneg {A} (n : Z) (l : list A) :
  0 <= n -> py_take n l = take (Z.to_nat n) l.
Proof. intros Hn. unfold py_take. destruct (n <? 0) eqn:E; [lia|done]. Qed.

Lemma strongly_sorted_impl {A} (R R' : A -> A -> Prop) l :
  (forall x y, R x y -> R' x y) -> StronglySorted R l -> StronglySorted R' l.
Proof.
  intros Himpl. induction 1 as [|x l Hl IH Hall]; constructor; [done|].
  eapply Forall_impl; [exact Hall|]. intros y. apply Himpl.
Qed.

Lemma string_compare_refl s : String.compare s s = Eq.
Proof. apply (cmp_refl String.compare). Qed.

End OrderFacts.

(** ** The store *)

Module StoreFacts.
Import Store Spec Fixtures.

Lemma same_key_refresh now e e' r :
  same_key e' (refresh now e r) = same_key e' r.
Proof. done. Qed.

Lemma refresh_kept now e r : summary_fields_kept r (refresh now e r).
Proof. by repeat split. Qed.

Lemma refresh_refreshed now e r : refreshed_from now e (refresh now e r).
Proof.
  unfold refreshed_from, refresh, get_or_empty. simpl.
  by destruct (ie_signature e), (ie_docstring e).
Qed.

(** The upsert leaves every stored row in its place: the row is refreshed
    when its key is the entity's, untouched otherwise. *)
Lemma upsert_lookup now e rows p r :
  rows !! p = Some r ->
  upsert now e rows !! p = Some (if same_key e r then refresh now e r else r).
Proof.
  intros Hp. unfold upsert. destruct (existsb (same_key e) rows) eqn:Hex.
  - by rewrite list_lookup_fmap, Hp.
  - rewrite lookup_app_l by (by eapply lookup_lt_Some).
    rewrite Hp. f_equal.
    destruct (same_key e r) eqn:Hk; [|done].
    assert (existsb (same_key e) rows = true); [|congruence].
    apply existsb_exists. exists r. split; [|done].
    apply list_elem_of_In. by eapply list_elem_of_lookup_2.
Qed.

(** The loop of the ingest, seen from one stored row. *)
Lemma upsert_all_lookup clock es : forall i rows p r,
  rows !! p = Some r ->
  exists r',
    upsert_all clock i es rows !! p = Some r'
    /\ id r' = id r /\ kind r' = kind r /\ fqname r' = fqname r
    /\ summary_fields_kept r r'
    /\ ((forall e, e ∈ es -> same_key e r = false) -> r' = r)
    /\ (forall j e,
          es !! j = Some e -> same_key e r = true ->
          (forall j' e', (j < j')%nat -> es !! j' = Some e' -> same_key e' r = false) ->
          refreshed_from (clock (i + j)%nat) e r').
Proof.
  induction es as [|e0 es IH]; intros i rows p r Hp; simpl.
  - exists r. by repeat split.
  - pose proof (upsert_lookup (clock i) e0 rows p r Hp) as Hp1.
    destruct (IH (S i) _ p _ Hp1) as (r' & Hr' & Hid & Hkind & Hfq & Hkept & Hsame & Hlast).
    exists r'. split; [done|].
    assert (Hk : forall e, same_key e (if same_key e0 r then refresh (clock i) e0 r else r)
                           = same_key e r).
    { intros e. by destruct (same_key e0 r). }
    split_and!.
    + rewrite Hid. by destruct (same_key e0 r).
    + rewrite Hkind. by destruct (same_key e0 r).
    + rewrite Hfq. by destruct (same_key e0 r).
    + destruct Hkept as (H1 & H2 & H3 & H4 & H5 & H6 & H7).
      unfold summary_fields_kept.
      rewrite H1, H2, H3, H4, H5, H6, H7. by destruct (same_key e0 r).
    + intros Hnone. rewrite Hsame.
      * rewrite (Hnone e0); [done|by left].
      * intros e He. rewrite Hk. apply Hnone. by right.
    + intros [|j] e Hj Hke Hlater.
      * simpl in Hj. injection Hj as <-. rewrite Hke in *.
        rewrite Hsame.
        -- replace (i + 0)%nat with i by lia. apply refresh_refreshed.
        -- intros e He. rewrite same_key_refresh.
           apply list_elem_of_lookup in He as [j' Hj'].
           apply (Hlater (S j') e); [lia|done].
      * simpl in Hj. replace (i + S j)%nat with (S i + j)%nat by lia.
        apply Hlast; [done|by rewrite Hk|].
        intros j' e' Hlt Hj'. rewrite Hk. apply (Hlater (S j') e'); [lia|done].
Qed.

(** The last element of a list that passes a test, from a place on. *)
Lemma last_match {A} (P : A -> bool) (l : list A) : forall j e,
  l !! j = Some e -> P e = true ->
  exists j' e',
    (j <= j')%nat /\ l !! j' = Some e' /\ P e' = true
    /\ forall j'' e'', (j' < j'')%nat -> l !! j'' = Some e'' -> P e'' = false.
Proof.
  induction l as [|x l IH]; intros j e Hj He; [done|].
  destruct j as [|j]; simpl in Hj.
  - injection Hj as ->. destruct (existsb P l) eqn:Hex.
    + apply existsb_exists in Hex as (y & Hy & HPy).
      apply list_elem_of_In, list_elem_of_lookup in Hy as [i Hi].
      destruct (IH i y Hi HPy) as (j' & e' & _ & Hj' & HP' & Hlast).
      exists (S j'), e'. split_and!; [lia|done|done|].
      intros [|j''] e'' Hlt Hj''; [lia|]. apply (Hlast j''); [lia|done].
    + exists 0%nat, e. split_and!; [lia|done|done|].
      intros [|j''] e'' Hlt Hj''; [lia|]. simpl in Hj''.
      destruct (P e'') eqn:HP; [|done].
      assert (existsb P l = true); [|congruence].
      apply existsb_exists. exists e''. split; [|done].
      apply list_elem_of_In. by eapply list_elem_of_lookup_2.
  - destruct (IH j e Hj He) as (j' & e' & Hle & Hj' & HP' & Hlast).
    exists (S j'), e'. split_and!; [lia|done|done|].
    intros [|j''] e'' Hlt Hj''; [lia|]. apply (Hlast j''); [lia|done].
Qed.

(** C3. When an entity of the index conflicts on [(kind, fqname)] with a
    stored row, [ingest_index] leaves that row in its place with its id
    and key, and leaves its seven summary fields as they were.  Its file,
    start line, end line, signature, docstring and code hash are
    overwritten with those of the entity, and its [updated_at] with the
    time of that write: of the entity itself when the index has its key
    once, of the last entity of that key when the index repeats it, later
    writes replacing earlier ones. *)
Theorem ingest_conflict_refreshes_and_keeps_summary
    (clock : nat -> string) (idx : index) (s : store)
    (p : nat) (r : entity) (j : nat) (e : index_entity) :
  entities s !! p = Some r ->
  idx_entities idx !! j = Some e ->
  same_key e r = true ->
  exists r',
    entities (ingest_index clock idx s) !! p = Some r'
    /\ id r' = id r /\ kind r' = kind r /\ fqname r' = fqname r
    /\ summary_fields_kept r r'
    /\ ((forall j' e', j' <> j -> idx_entities idx !! j' = Some e' ->
                       same_key e' r = false) ->
        refreshed_from (clock j) e r')
    /\ (exists j' e',
          (j <= j')%nat /\ idx_entities idx !! j' = Some e' /\ same_key e' r = true
          /\ (forall j'' e'', (j' < j'')%nat -> idx_entities idx !! j'' = Some e'' ->
                              same_key e'' r = false)
          /\ refreshed_from (clock j') e' r').
Proof.
  intros Hp Hj Hk.
  destruct (upsert_all_lookup clock (idx_entities idx) 0 _ p r Hp)
    as (r' & Hr' & Hid & Hkind & Hfq & Hkept & _ & Hrefr).
  exists r'. split_and!; try done.
  - intros Honly. replace j with (0 + j)%nat by lia. apply Hrefr; [done..|].
    intros j' e' Hlt. apply Honly. lia.
  - destruct (last_match (fun e' => same_key e' r) (idx_entities idx) j e Hj Hk)
      as (j' & e' & Hle & Hj' & Hk' & Hlast).
    exists j', e'. split_and!; try done.
    replace j' with (0 + j')%nat by lia. by apply Hrefr.
Qed.

Lemma ingest_conflict_refreshes_and_keeps_summary_witness :
  entities test_store !! 0%nat = Some row_fn
  /\ idx_entities rescan !! 0%nat = Some fn_rescanned
  /\ same_key fn_rescanned row_fn = true
  /\ exists r',
       entities (ingest_index noon rescan test_store) !! 0%nat = Some r'
       /\ refreshed_from (noon 0%nat) fn_rescanned r'
       /\ summary r' = Some "adds one"
       /\ summary_fields_kept row_fn r'.
Proof.
  split; [reflexivity|]. split; [reflexivity|]. split; [reflexivity|].
  destruct (ingest_conflict_refreshes_and_keeps_summary noon rescan test_store
              0%nat row_fn 0%nat fn_rescanned eq_refl eq_refl eq_refl)
    as (r' & Hr' & _ & _ & _ & Hkept & Honly & _).
  exists r'. split; [exact Hr'|]. split.
  - apply Honly. intros [|j'] e' Hne Hj'; [done|]. simpl in Hj'. discriminate.
  - split; [|exact Hkept]. destruct Hkept as [-> _]. reflexivity.
Defined.

(** The rows of a table whose id is not [i] are not touched by an update
    of the row [i]. *)
Lemma update_missing_id (f : entity -> entity) i rows :
  (forall r, r ∈ rows -> id r <> i) ->
  map (fun r => if has_id i r then f r else r) rows = rows.
Proof.
  induction rows as [|r rows IH]; intros H; [done|]. simpl.
  rewrite IH by (intros; apply H; by right).
  unfold has_id. destruct (Z.eqb_spec (id r) i) as [Heq|]; [|done].
  exfalso. apply (H r); [by left|done].
Qed.

Lemma with_entities_same s : with_entities s (entities s) = s.
Proof. by destruct s. Qed.

Lemma filter_missing_id i rows :
  (forall r, r ∈ rows -> id r <> i) ->
  filter (fun r => has_id i r = true) rows = [].
Proof.
  induction rows as [|r rows IH]; intros H; [done|].
  rewrite filter_cons, IH by (intros; apply H; by right).
  unfold has_id. destruct (Z.eqb_spec (id r) i) as [Heq|Hne].
  - exfalso. apply (H r); [by left|done].
  - by rewrite decide_False by done.
Qed.

(** [write_summary_cur] never reports success on an id that no row has,
    and leaves the table as it was. *)
Lemma write_summary_cur_missing_id now i txt h tr tok cov backend s :
  (forall r, r ∈ entities s -> id r <> i) ->
  exists o, write_summary_cur now i txt h tr tok cov backend s = (s, o) /\ o <> Done.
Proof.
  intros H. unfold write_summary_cur.
  destruct (negb _); [by exists ValueError|].
  rewrite (filter_missing_id i _ H), update_missing_id, with_entities_same by done.
  simpl. rewrite andb_false_r. by exists (RowcountError 0).
Qed.

(** When [write_summary_cur] reports success, exactly one row has the id,
    and the new table is the old one with the summary written into that
    row and the recorded error cleared. *)
Lemma write_summary_cur_done now i txt h tr tok cov backend s s' :
  write_summary_cur now i txt h tr tok cov backend s = (s', Done) ->
  length (filter (fun r => has_id i r = true) (entities s)) = 1%nat
  /\ entities s' =
       map (fun r => if has_id i r
                     then set_summary now txt h tr tok cov backend r else r)
         (entities s)
  /\ forall r', r' ∈ entities s' -> id r' = i -> summary_error r' = None.
Proof.
  unfold write_summary_cur. destruct (negb _); [done|].
  destruct (_ && _); [done|].
  destruct (Z.eqb_spec (Z.of_nat (length (filter (fun r => has_id i r = true)
                                            (entities s)))) 1) as [Hone|]; [|done].
  intros [= <-]. split; [lia|]. split; [done|].
  simpl. intros r' Hr' Hid.
  apply list_elem_of_fmap in Hr' as (r & -> & _).
  destruct (has_id i r) eqn:Hr; [done|].
  unfold has_id in Hr. apply Z.eqb_neq in Hr. done.
Qed.

Lemma filter_has_id i (rows : list entity) :
  filter (fun r => has_id i r = true) rows = filter (fun r => id r = i) rows.
Proof.
  induction rows as [|r rows IH]; [done|].
  rewrite !filter_cons, IH. unfold has_id.
  destruct (Z.eqb_spec (id r) i) as [Heq|Hne].
  - by rewrite !decide_True.
  - by rewrite decide_False, (decide_False (P := id r = i)).
Qed.

(** A list with exactly one element that passes a test has it at one
    position, and no element elsewhere passes. *)
Lemma filter_one_position {A} (P : A -> Prop) `{!forall x, Decision (P x)} (l : list A) :
  length (filter P l) = 1%nat ->
  exists p x, l !! p = Some x /\ P x
              /\ forall q y, l !! q = Some y -> P y -> q = p.
Proof.
  induction l as [|a l IH]; [done|]. rewrite filter_cons.
  destruct (decide (P a)) as [Ha|Hna]; simpl; intros Hlen.
  - exists 0%nat, a. split_and!; [done..|].
    intros [|q] y Hq Hy; [done|]. exfalso. simpl in Hq.
    assert (Hy' : y ∈ filter P l).
    { apply list_elem_of_filter. split; [done|]. by eapply list_elem_of_lookup_2. }
    destruct (filter P l); [by apply elem_of_nil in Hy'|done].
  - destruct (IH Hlen) as (p & x & Hp & Hx & Huniq).
    exists (S p), x. split_and!; [done..|].
    intros [|q] y Hq Hy; simpl in Hq.
    + injection Hq as <-. done.
    + f_equal. by eapply Huniq.
Qed.

(** C6.  Writing a summary, that is [write_summary_cur], affects exactly
    one row.  With [n] the number of rows that have the id: when [n] is
    not one the write does not return normally (with a backend the table
    accepts it raises the row-count error that names [n]), and when [n] is
    zero the table is as it was; when the write returns normally, one row
    and no other has the id, that row now carries the summary, its hash,
    the truncation flag, the token count, the coverage and the backend, its
    recorded error is cleared, and every other row is what it was. *)
Theorem write_summary_cur_affects_exactly_one_row
    (now : string) (i : Z) (txt h : string) (tr : bool) (tok : Z)
    (cov backend : string) (s : store) :
  let n := length (filter (fun r => id r = i) (entities s)) in
  let out := write_summary_cur now i txt h tr tok cov backend s in
  (n <> 1%nat -> out.2 <> Done)
  /\ (n <> 1%nat -> backend = "codex" -> out.2 = RowcountError (Z.of_nat n))
  /\ (n = 0%nat -> out.1 = s)
  /\ (out.2 = Done ->
      exists p r r',
        entities s !! p = Some r /\ id r = i
        /\ (forall q r0, entities s !! q = Some r0 -> id r0 = i -> q = p)
        /\ entities out.1 !! p = Some r'
        /\ id r' = i /\ kind r' = kind r /\ fqname r' = fqname r
        /\ summary r' = Some txt
        /\ summary_hash r' = Some h
        /\ code_truncated r' = Some (if tr then 1 else 0)
        /\ summary_prompt_tokens r' = Some tok
        /\ summary_coverage r' = Some cov
        /\ summary_backend r' = Some backend
        /\ summary_error r' = None
        /\ (forall q, q <> p -> entities out.1 !! q = entities s !! q)
        /\ length (entities out.1) = length (entities s)).
Proof.
  intros n out. subst n out. split_and!.
  - intros Hn Hdone.
    destruct (write_summary_cur now i txt h tr tok cov backend s) as [s' o] eqn:Hw.
    simpl in Hdone. subst o.
    apply write_summary_cur_done in Hw as (Hone & _).
    by rewrite filter_has_id in Hone.
  - intros Hn ->. unfold write_summary_cur. simpl.
    rewrite filter_has_id.
    destruct (Z.eqb_spec (Z.of_nat (length (filter (fun r => id r = i) (entities s)))) 1)
      as [H1|H1]; [lia|done].
  - intros Hn.
    assert (Hnone : forall r, r ∈ entities s -> id r <> i).
    { intros r Hr Hid.
      assert (Hin : r ∈ filter (fun r => id r = i) (entities s))
        by (by apply list_elem_of_filter).
      destruct (filter (fun r => id r = i) (entities s));
        [by apply elem_of_nil in Hin|done]. }
    destruct (write_summary_cur_missing_id now i txt h tr tok cov backend s Hnone)
      as (o & -> & _). done.
  - intros Hdone.
    destruct (write_summary_cur now i txt h tr tok cov backend s) as [s' o] eqn:Hw.
    simpl in Hdone. subst o. simpl.
    apply write_summary_cur_done in Hw as (Hone & Hrows & _).
    rewrite filter_has_id in Hone.
    destruct (filter_one_position _ _ Hone) as (p & r & Hp & Hid & Huniq).
    assert (Hlook : forall q, entities s' !! q
              = (fun r => if has_id i r
                          then set_summary now txt h tr tok cov backend r else r)
                <$> entities s !! q).
    { intros q. rewrite Hrows. apply list_lookup_fmap. }
    exists p, r, (set_summary now txt h tr tok cov backend r).
    split_and!; try done.
    + rewrite Hlook, Hp. simpl. unfold has_id. by rewrite (proj2 (Z.eqb_eq _ _) Hid).
    + intros q Hq. rewrite Hlook.
      destruct (entities s !! q) as [r0|] eqn:Hr0; [simpl|done].
      unfold has_id. destruct (Z.eqb_spec (id r0) i) as [Heq|]; [|done].
      exfalso. apply Hq. by eapply Huniq.
    + rewrite Hrows. apply length_map.
Qed.

(** [write_summary] of [db/sqlite.py], a helper of three arguments that
    nothing calls, has neither the row count test nor the clearing of the
    error: on an id that no row has it returns as if it had written, and
    on a row that carries a recorded error it leaves the error there. *)
Example write_summary_is_silent_and_keeps_error :
  write_summary "2026-06-01 12:00:00" 999 "text" failed_store = (failed_store, Done)
  /\ write_summary_cur "2026-06-01 12:00:00" 999 "text" "h1" false 12 "full" "codex"
       failed_store = (failed_store, RowcountError 0)
  /\ (exists r', entities (write_summary "2026-06-01 12:00:00" 1 "text" failed_store).1
                  !! 0%nat = Some r'
                /\ summary r' = Some "text" /\ summary_error r' = Some "timeout")
  /\ (exists r', entities (write_summary_cur "2026-06-01 12:00:00" 1 "text" "h1" false
                             12 "full" "codex" failed_store).1 !! 0%nat = Some r'
                /\ summary r' = Some "text" /\ summary_error r' = None).
Proof.
  split; [reflexivity|]. split; [reflexivity|].
  split; eexists; (split; [reflexivity|split; reflexivity]).
Qed.

(** The [CHECK] of the schema spells the first backend [ollam]: a write
    that names the backend [ollama] passes the test of [write_summary_cur]
    and is then refused by the table when a row has the id. *)
Example write_summary_cur_ollama_is_refused :
  write_summary_cur "2026-06-01 12:00:00" 1 "text" "h1" false 12 "full" "ollama"
    failed_store = (failed_store, CheckConstraintFailed).
Proof. reflexivity. Qed.

(** On every table, [write_summary] on an id that no row has returns
    normally and changes nothing. *)
Lemma write_summary_missing_id now i txt s :
  (forall r, r ∈ entities s -> id r <> i) ->
  write_summary now i txt s = (s, Done).
Proof.
  intros H. unfold write_summary.
  by rewrite update_missing_id, with_entities_same.
Qed.

End StoreFacts.

(** ** Retrieval *)

Module RelatedFacts.
Import Store Retrieve Order OrderFacts Fixtures Spec.

Lemma flat_map_nonempty {A B} (f : A -> list B) (l : list A) x :
  x ∈ l -> f x <> [] -> flat_map f l <> [].
Proof.
  intros Hx Hf Hnil. apply Hf.
  apply list_elem_of_In in Hx.
  destruct (f x) as [|y ys] eqn:E; [done|].
  assert (Hy : In y (flat_map f l)).
  { apply in_flat_map. exists x. split; [done|]. rewrite E. by left. }
  rewrite Hnil in Hy. done.
Qed.

(** With a bound of one, a ranking that is not empty gives one result,
    the first of every longer answer. *)
Lemma take_one_of_ranking {A B} (f : A -> B) (l : list A) (limit n : Z) :
  limit <= 0 -> 1 <= n -> l <> [] ->
  map f (py_take (Z.max 1 limit) l) = map f (py_take 1 l)
  /\ length (map f (py_take (Z.max 1 limit) l)) = 1%nat
  /\ map f (py_take (Z.max 1 limit) l) = take 1 (map f (py_take (Z.max 1 n) l)).
Proof.
  intros Hlim Hn Hl.
  replace (Z.max 1 limit) with 1 by lia. replace (Z.max 1 n) with n by lia.
  rewrite !py_take_nonneg by lia.
  split; [done|]. split.
  - rewrite length_map, length_take. destruct l; [done|simpl; lia].
  - rewrite <- fmap_take, take_take. do 2 f_equal. lia.
Qed.

Lemma sorted_by_nonempty {A K} (key : A -> K) cmp (l : list A) :
  l <> [] -> sorted_by key cmp l <> [].
Proof.
  intros Hl Hs. apply Hl. apply length_zero_iff_nil.
  by rewrite <- (sorted_by_length key cmp), Hs.
Qed.

(** The first of a sorted list is one of the list and no later than any. *)
Lemma sorted_head_least {A K} (key : A -> K) (cmp : K -> K -> comparison)
    `{!CmpLaws cmp} (l : list A) x rest :
  sorted_by key cmp l = x :: rest ->
  x ∈ l /\ forall y, y ∈ l -> key_le key cmp x y.
Proof.
  intros Hs. pose proof (sorted_by_sorted key cmp l) as Hsorted.
  rewrite Hs in Hsorted. split.
  - apply (sorted_by_elem key cmp). rewrite Hs. by left.
  - intros y Hy. apply (sorted_by_elem key cmp) in Hy. rewrite Hs in Hy.
    apply elem_of_cons in Hy as [->|Hy].
    + unfold key_le, key_leb, leb_of. by rewrite cmp_refl.
    + apply StronglySorted_inv in Hsorted as [_ Hall].
      rewrite Forall_forall in Hall. by apply Hall.
Qed.

(** The clamp on a ranking that is not empty: one result, the least of
    the ranking, and the first of the answer to every limit of one or
    more. *)
Lemma clamp_top {K B} (cmp : K -> K -> comparison) `{!CmpLaws cmp}
    (l : list (K * B)) (limit : Z) :
  limit <= 0 -> l <> [] ->
  exists x,
    x ∈ l
    /\ (forall y, y ∈ l -> leb_of cmp x.1 y.1 = true)
    /\ map snd (py_take (Z.max 1 limit) (sorted_by fst cmp l)) = [x.2]
    /\ map snd (py_take (Z.max 1 limit) (sorted_by fst cmp l))
       = map snd (py_take (Z.max 1 1) (sorted_by fst cmp l))
    /\ forall n, 1 <= n ->
         map snd (py_take (Z.max 1 limit) (sorted_by fst cmp l))
         = take 1 (map snd (py_take (Z.max 1 n) (sorted_by fst cmp l))).
Proof.
  intros Hlim Hl.
  destruct (sorted_by fst cmp l) as [|x rest] eqn:Hs.
  { by apply (sorted_by_nonempty fst cmp) in Hl. }
  destruct (sorted_head_least fst cmp l x rest Hs) as [Hx Hleast].
  exists x. split; [done|]. split; [exact Hleast|].
  assert (Hne : x :: rest <> []) by done.
  destruct (take_one_of_ranking snd (x :: rest) limit 1 Hlim ltac:(lia) Hne)
    as (H1 & _ & _).
  split_and!.
  - rewrite H1. reflexivity.
  - rewrite H1. reflexivity.
  - intros n Hn.
    by destruct (take_one_of_ranking snd (x :: rest) limit n Hlim Hn Hne) as (_ & _ & H3).
Qed.

Lemma cmp_ZZS_order (x y : Z * Z * string) :
  leb_of cmp_ZZS x y = true <->
  x.1.1 < y.1.1
  \/ (x.1.1 = y.1.1
      /\ (x.1.2 < y.1.2 \/ (x.1.2 = y.1.2 /\ (text_lt x.2 y.2 \/ x.2 = y.2)))).
Proof.
  destruct x as [[a1 a2] a3], y as [[b1 b2] b3].
  unfold leb_of, cmp_ZZS, cmp_pair, lex, text_lt. simpl.
  assert (Hk : a3 = b3 <-> String.compare a3 b3 = Eq).
  { split; [intros ->; apply string_compare_refl|apply String.compare_eq_iff]. }
  rewrite Hk, <- !Z.compare_lt_iff, <- !Z.compare_eq_iff.
  destruct (a1 ?= b1), (a2 ?= b2), (String.compare a3 b3); intuition congruence.
Qed.

Lemma cmp_ZZZS_order (x y : Z * Z * Z * string) :
  leb_of cmp_ZZZS x y = true <->
  x.1.1.1 < y.1.1.1
  \/ (x.1.1.1 = y.1.1.1
      /\ (x.1.1.2 < y.1.1.2
          \/ (x.1.1.2 = y.1.1.2
              /\ (x.1.2 < y.1.2
                  \/ (x.1.2 = y.1.2 /\ (text_lt x.2 y.2 \/ x.2 = y.2)))))).
Proof.
  destruct x as [[[a0 a1] a2] a3], y as [[[b0 b1] b2] b3].
  unfold leb_of, cmp_ZZZS, cmp_pair, lex, text_lt. simpl.
  assert (Hk : a3 = b3 <-> String.compare a3 b3 = Eq).
  { split; [intros ->; apply string_compare_refl|apply String.compare_eq_iff]. }
  rewrite Hk, <- !Z.compare_lt_iff, <- !Z.compare_eq_iff.
  destruct (a0 ?= b0), (a1 ?= b1), (a2 ?= b2), (String.compare a3 b3);
    intuition congruence.
Qed.

(** The score of the code is the score in words. *)
Lemma method_score_rank m : method_rank m (method_score m).
Proof.
  unfold method_score.
  destruct (existsb (String.eqb m) prefer_exact) eqn:Hex.
  - apply existsb_exists in Hex as (x & Hx & Heq).
    apply String.eqb_eq in Heq. subst x. apply rank_name. by apply list_elem_of_In.
  - assert (Hnot : m ∉ preferred_names).
    { intros Hin. apply not_true_iff_false in Hex. apply Hex.
      apply existsb_exists. exists m. split; [by apply list_elem_of_In|].
      apply String.eqb_refl. }
    destruct (existsb (PyStr.startswith m) prefer_prefix) eqn:Hpre.
    + apply existsb_exists in Hpre as (p & Hp & Hstart).
      apply (rank_prefix m p); [done|by apply list_elem_of_In|exact Hstart].
    + apply rank_other; [done|]. intros p Hp.
      apply not_true_iff_false. intros Hstart.
      apply not_true_iff_false in Hpre. apply Hpre.
      apply existsb_exists. exists p. split; [by apply list_elem_of_In|exact Hstart].
Qed.

Lemma methods_ranked_elem cls rows k e :
  (k, e) ∈ methods_ranked cls rows <->
  e ∈ rows
  /\ PyStr.has_char dot (_method_name cls (fqname e)) = false
  /\ k = (method_score (_method_name cls (fqname e)), start_line e,
          _method_name cls (fqname e)).
Proof.
  unfold methods_ranked. rewrite list_elem_of_In, in_flat_map. split.
  - intros (e0 & He0 & Hin).
    destruct (PyStr.has_char dot (_method_name cls (fqname e0))) eqn:Hdot; [done|].
    destruct Hin as [Heq|[]]. injection Heq as <- <-.
    by rewrite list_elem_of_In.
  - intros (He & Hdot & ->). exists e. split; [by apply list_elem_of_In|].
    rewrite Hdot. by left.
Qed.

Lemma kind_rank_rank e :
  kind e ∈ ["class"; "function"; "method"] -> neighbor_rank e (kind_rank (kind e)).
Proof.
  intros Hk. unfold kind_rank.
  destruct (String.eqb_spec (kind e) "class") as [Hc|Hc]; [by apply rank_class|].
  destruct (String.eqb_spec (kind e) "function") as [Hf|Hf]; [by apply rank_function|].
  destruct (String.eqb_spec (kind e) "method") as [Hm|Hm]; [by apply rank_method|].
  exfalso. apply elem_of_cons in Hk as [Hk|Hk]; [done|].
  apply elem_of_cons in Hk as [Hk|Hk]; [done|].
  apply elem_of_cons in Hk as [Hk|Hk]; [done|].
  by apply elem_of_nil in Hk.
Qed.

Lemma distance_gap a b e : line_gap a b e (_distance a b e).
Proof.
  unfold _distance.
  destruct (Z.ltb_spec (end_line e) a) as [H1|H1]; [by apply gap_before|].
  destruct (Z.gtb_spec (start_line e) b) as [H2|H2].
  - apply gap_after; lia.
  - apply gap_none; lia.
Qed.

Lemma neighbor_rows_elem s f e :
  e ∈ neighbor_rows s f <->
  e ∈ entities s /\ file e = f /\ kind e ∈ ["class"; "function"; "method"].
Proof.
  unfold neighbor_rows.
  rewrite (sorted_by_elem line_key cmp_ZS), list_elem_of_In, filter_In,
    andb_true_iff, String.eqb_eq, existsb_exists, <- list_elem_of_In.
  split.
  - intros (He & Hf & (k & Hk & Heq)). apply String.eqb_eq in Heq. subst k.
    split_and!; [done..|]. by apply list_elem_of_In.
  - intros (He & Hf & Hk). split_and!; [done..|].
    exists (kind e). split; [by apply list_elem_of_In|apply String.eqb_refl].
Qed.

Lemma neighbors_scored_elem a b ex rows k e :
  (k, e) ∈ neighbors_scored a b ex rows <->
  e ∈ rows /\ ex <> Some (id e)
  /\ k = (kind_rank (kind e), _distance a b e, start_line e, fqname e).
Proof.
  unfold neighbors_scored. rewrite list_elem_of_In, in_flat_map. split.
  - intros (e0 & He0 & Hin). destruct ex as [x|].
    + destruct (Z.eqb_spec (id e0) x) as [Hx|Hx]; [done|].
      destruct Hin as [Heq|[]]. injection Heq as <- <-.
      rewrite list_elem_of_In. split_and!; [done| |done]. congruence.
    + destruct Hin as [Heq|[]]. injection Heq as <- <-.
      by rewrite list_elem_of_In.
  - intros (He & Hex & ->). exists e. split; [by apply list_elem_of_In|].
    destruct ex as [x|]; [|by left].
    destruct (Z.eqb_spec (id e) x) as [Hx|Hx]; [congruence|by left].
Qed.

Lemma method_rows_fetched s cls e :
  e ∈ method_rows s cls ->
  e ∈ entities s /\ kind e = "method" /\ Sql.like (fqname e) (cls +:+ ".%") = true.
Proof.
  unfold method_rows, sql_limit. simpl. intros He.
  apply elem_of_take in He as (i & He & _).
  apply list_elem_of_lookup_2 in He.
  apply (proj1 (sorted_by_elem line_key cmp_ZS _ _)) in He.
  apply list_elem_of_In, filter_In in He as [He Hc].
  apply andb_true_iff in Hc as [Hk Hl]. apply String.eqb_eq in Hk.
  by rewrite list_elem_of_In.
Qed.

Lemma method_rows_all s cls e :
  Z.of_nat (length (entities s)) <= 250 ->
  e ∈ entities s -> kind e = "method" ->
  Sql.like (fqname e) (cls +:+ ".%") = true ->
  e ∈ method_rows s cls.
Proof.
  intros Hlen He Hk Hl. unfold method_rows, sql_limit. simpl.
  rewrite take_ge.
  - apply (sorted_by_elem line_key cmp_ZS).
    apply list_elem_of_In, filter_In. split; [by apply list_elem_of_In|].
    by rewrite Hk, Hl.
  - rewrite (sorted_by_length line_key cmp_ZS).
    pose proof (List.filter_length_le
                  (fun e => String.eqb (kind e) "method"
                            && Sql.like (fqname e) (cls +:+ ".%")) (entities s)).
    lia.
Qed.

Lemma method_name_of_member cls : forall m,
  _method_name cls (cls +:+ "." +:+ m) = m.
Proof.
  intros m. unfold _method_name.
  assert (Hpre : PyStr.startswith (cls +:+ "." +:+ m) (cls +:+ ".") = true).
  { unfold PyStr.startswith. induction cls as [|c cls IH]; simpl.
    - destruct (Ascii.ascii_dec "."%char "."%char); [|done]. by destruct m.
    - destruct (Ascii.ascii_dec c c); [exact IH|done]. }
  rewrite Hpre. simpl.
  induction cls as [|c cls IH]; [done|].
  simpl. apply IH.
  unfold PyStr.startswith in *. simpl in Hpre.
  by destruct (Ascii.ascii_dec c c).
Qed.

(** C10.  With a limit that is zero or negative, [class_methods] and
    [module_neighbors] cut their ranking at one result, not at none.
    When an eligible entity exists (for [class_methods] a fetched row,
    which is a stored method whose fqname is [LIKE] the class, a dot and
    anything, every such method being fetched when the table has at most
    250 rows, and whose name after the class has no dot; for
    [module_neighbors] a class, function or method of the file other than
    the excluded id), the answer is exactly one entity, which is eligible
    and is the top of the ranking: no later than every eligible entity
    in the order of the function (for methods the score of the name, 0
    for a preferred name, 1 for a preferred prefix, else 5, then the
    start line, then the name; for neighbours classes and functions
    before methods, then the gap in lines to the span, then the start
    line, then the fqname).  It is the answer to limit 1 and the first
    of the answer to every larger limit. *)
Theorem nonpositive_limit_yields_the_top_result (s : store) (limit : Z) :
  limit <= 0 ->
  (forall cls e,
      eligible_method s cls e ->
      exists top,
        class_methods s cls limit = [top]
        /\ eligible_method s cls top
        /\ (forall e', eligible_method s cls e' -> method_no_later cls top e')
        /\ class_methods s cls limit = class_methods s cls 1
        /\ forall n, 1 <= n ->
             class_methods s cls limit = take 1 (class_methods s cls n))
  /\ (forall f a b ex e,
        eligible_neighbor s f ex e ->
        exists top,
          module_neighbors s f a b ex limit = [top]
          /\ eligible_neighbor s f ex top
          /\ (forall e', eligible_neighbor s f ex e' -> neighbor_no_later a b top e')
          /\ module_neighbors s f a b ex limit = module_neighbors s f a b ex 1
          /\ forall n, 1 <= n ->
               module_neighbors s f a b ex limit
               = take 1 (module_neighbors s f a b ex n))
  /\ (forall cls e,
        e ∈ method_rows s cls ->
        e ∈ entities s /\ kind e = "method"
        /\ Sql.like (fqname e) (cls +:+ ".%") = true)
  /\ (Z.of_nat (length (entities s)) <= 250 ->
      forall cls e,
        e ∈ entities s -> kind e = "method" ->
        Sql.like (fqname e) (cls +:+ ".%") = true ->
        e ∈ method_rows s cls)
  /\ (forall cls m, _method_name cls (cls +:+ "." +:+ m) = m).
Proof.
  intros Hlim. split_and!.
  - intros cls e [He Hdot]. unfold class_methods.
    assert (Hne : methods_ranked cls (method_rows s cls) <> []).
    { unfold methods_ranked. eapply flat_map_nonempty; [exact He|]. by rewrite Hdot. }
    destruct (clamp_top cmp_ZZS _ limit Hlim Hne)
      as ([k top] & Hin & Hleast & Hone & Hsame & Hfirst).
    apply methods_ranked_elem in Hin as (Htop & Htopdot & ->).
    exists top. split_and!; [exact Hone|done| |exact Hsame|exact Hfirst].
    intros e' [He' Hdot'].
    assert (Hin' : ((method_score (_method_name cls (fqname e')), start_line e',
                     _method_name cls (fqname e')), e')
                   ∈ methods_ranked cls (method_rows s cls))
      by (by apply methods_ranked_elem).
    specialize (Hleast _ Hin'). apply cmp_ZZS_order in Hleast. simpl in Hleast.
    exists (method_score (_method_name cls (fqname top))),
      (method_score (_method_name cls (fqname e'))).
    split; [apply method_score_rank|]. split; [apply method_score_rank|exact Hleast].
  - intros f a b ex e (He & Hf & Hk & Hex). unfold module_neighbors.
    assert (Hne : neighbors_scored a b ex (neighbor_rows s f) <> []).
    { intros Hnil.
      assert (Hin : ((kind_rank (kind e), _distance a b e, start_line e, fqname e), e)
                    ∈ neighbors_scored a b ex (neighbor_rows s f)).
      { apply neighbors_scored_elem. split_and!; [|done..].
        by apply neighbor_rows_elem. }
      rewrite Hnil in Hin. by apply elem_of_nil in Hin. }
    destruct (clamp_top cmp_ZZZS _ limit Hlim Hne)
      as ([k top] & Hin & Hleast & Hone & Hsame & Hfirst).
    apply neighbors_scored_elem in Hin as (Htop & Htopex & ->).
    apply neighbor_rows_elem in Htop as (Htop & Htopf & Htopk).
    exists top. split_and!; [exact Hone|done| |exact Hsame|exact Hfirst].
    intros e' (He' & Hf' & Hk' & Hex').
    assert (Hin' : ((kind_rank (kind e'), _distance a b e', start_line e', fqname e'), e')
                   ∈ neighbors_scored a b ex (neighbor_rows s f)).
    { apply neighbors_scored_elem. split_and!; [|done..].
      by apply neighbor_rows_elem. }
    specialize (Hleast _ Hin'). apply cmp_ZZZS_order in Hleast. simpl in Hleast.
    exists (kind_rank (kind top)), (kind_rank (kind e')),
      (_distance a b top), (_distance a b e').
    split_and!; [by apply kind_rank_rank|by apply kind_rank_rank
                |apply distance_gap|apply distance_gap|exact Hleast].
  - intros cls e. apply method_rows_fetched.
  - intros Hlen cls e. by apply method_rows_all.
  - intros cls m. apply method_name_of_member.
Qed.

Lemma nonpositive_limit_yields_the_top_result_witness :
  -3 <= 0
  /\ class_methods resolve_store "pkg.mod.C" (-3) = [resolve_init]
  /\ method_no_later "pkg.mod.C" resolve_init resolve_get_x
  /\ module_neighbors resolve_store "pkg/mod.py" 1 11 (Some 1) (-3) = [resolve_nearby]
  /\ neighbor_no_later 1 11 resolve_nearby resolve_farther.
Proof.
  assert (Hlim : -3 <= 0) by lia.
  destruct (nonpositive_limit_yields_the_top_result resolve_store (-3) Hlim)
    as (Hc & Hm & _).
  split; [exact Hlim|].
  assert (Hi : eligible_method resolve_store "pkg.mod.C" resolve_init).
  { split; [|reflexivity]. apply (list_elem_of_lookup_2 _ 0%nat). vm_compute. reflexivity. }
  assert (Hg : eligible_method resolve_store "pkg.mod.C" resolve_get_x).
  { split; [|reflexivity]. apply (list_elem_of_lookup_2 _ 1%nat). vm_compute. reflexivity. }
  assert (Hn : eligible_neighbor resolve_store "pkg/mod.py" (Some 1) resolve_nearby).
  { split_and!; [|reflexivity| |discriminate].
    - apply (list_elem_of_lookup_2 _ 4%nat). reflexivity.
    - apply (list_elem_of_lookup_2 _ 1%nat). reflexivity. }
  assert (Hf : eligible_neighbor resolve_store "pkg/mod.py" (Some 1) resolve_farther).
  { split_and!; [|reflexivity| |discriminate].
    - apply (list_elem_of_lookup_2 _ 5%nat). reflexivity.
    - apply (list_elem_of_lookup_2 _ 1%nat). reflexivity. }
  destruct (Hc "pkg.mod.C" resolve_init Hi) as (top & Heq & _ & Hleast & _).
  assert (top = resolve_init) as ->
    by (vm_compute in Heq; by injection Heq as <-).
  split; [exact Heq|]. split; [exact (Hleast resolve_get_x Hg)|].
  destruct (Hm "pkg/mod.py" 1 11 (Some 1) resolve_nearby Hn) as (top & Heq' & _ & Hleast' & _).
  assert (top = resolve_nearby) as ->
    by (vm_compute in Heq'; by injection Heq' as <-).
  split; [exact Heq'|exact (Hleast' resolve_farther Hf)].
Defined.

(** The one result is the top of the ranking, not the first row fetched:
    with [helper] declared on line 2 and [__init__] on line 5, a limit of
    zero answers with [__init__]. *)
Example class_methods_prefers_init_to_an_earlier_method :
  method_rows late_init_store "pkg.mod.C" = [late_helper; late_init]
  /\ class_methods late_init_store "pkg.mod.C" 0 = [late_init].
Proof. split; vm_compute; reflexivity. Qed.

End RelatedFacts.

Module SearchFacts.
Import Store Retrieve Order OrderFacts Spec Fixtures.

(** C8.  [search] does not retry on every query that the engine rejects
    for its syntax, though its docstring names unbalanced quotes as the
    case in point.  The query of one quote and [abc] is sent as it is; the
    engine refuses it as an unterminated string; [search] makes no second
    call and the exception escapes, where the query escaped as a phrase
    (the quote doubled, between two quotes) would have been answered.
    On every engine: a rejection whose message does not hold the words
    [fts5: syntax error] escapes after the one call; a rejection whose
    message holds them is followed by one more call, with the raw query
    trimmed and escaped as a phrase, and what that call gives is the
    outcome, its exception not being caught again. *)
Theorem search_gives_up_on_an_unbalanced_quote :
  _normalize_fts_query unbalanced_query = unbalanced_query
  /\ search unterminated_engine unbalanced_query 10 None
     = ([unbalanced_query], Raised (OperationalError "unterminated string"))
  /\ _fts_phrase unbalanced_query
     = String dquote (String dquote (String dquote ("abc" +:+ String dquote EmptyString)))
  /\ unterminated_engine (_fts_phrase unbalanced_query) None (candidate_limit 10) = Rows []
  /\ (forall (fts : fts_engine) (query : string) (limit : Z)
             (kinds : option (list string)) (msg : string),
        fts (_normalize_fts_query query) (_normalize_kinds kinds) (candidate_limit limit)
        = OperationalError msg ->
        PyStr.contains "fts5: syntax error" msg = false ->
        search fts query limit kinds
        = ([_normalize_fts_query query], Raised (OperationalError msg)))
  /\ (forall (fts : fts_engine) (query : string) (limit : Z)
             (kinds : option (list string)) (msg : string),
        fts (_normalize_fts_query query) (_normalize_kinds kinds) (candidate_limit limit)
        = OperationalError msg ->
        PyStr.contains "fts5: syntax error" msg = true ->
        search fts query limit kinds
        = ([_normalize_fts_query query; _fts_phrase (PyStr.strip query)],
           match fts (_fts_phrase (PyStr.strip query)) (_normalize_kinds kinds)
                   (candidate_limit limit) with
           | Rows rows => Results (rerank query limit rows)
           | err => Raised err
           end))
  /\ search phrase_only_engine "foo(" 10 None
     = (["foo("; String dquote ("foo(" +:+ String dquote EmptyString)], Results []).
Proof.
  split_and!; try reflexivity.
  - intros fts query limit kinds msg Hreply Hmsg.
    unfold search. by rewrite Hreply, Hmsg.
  - intros fts query limit kinds msg Hreply Hmsg.
    unfold search. rewrite Hreply, Hmsg.
    by destruct (fts (_fts_phrase (PyStr.strip query)) _ _).
Qed.







End SearchFacts.

Module LookupFacts.
Import Store Retrieve Order OrderFacts Spec Fixtures.

(** *** [LIKE] in words *)

Lemma like_percent p s :
  Sql.like_from (String Sql.percent p) s = true <->
  exists pre suf, s = pre +:+ suf /\ Sql.like_from p suf = true.
Proof.
  change (Sql.like_from (String Sql.percent p) s) with
    ((fix any_run (s : string) : bool :=
        Sql.like_from p s ||
        match s with
        | EmptyString => false
        | String _ s' => any_run s'
        end) s).
  induction s as [|c s IH].
  - rewrite orb_false_r. split.
    + intros H. by exists EmptyString, EmptyString.
    + intros (pre & suf & Heq & H). by destruct pre, suf.
  - rewrite orb_true_iff, IH. split.
    + intros [H|(pre & suf & -> & H)].
      * by exists EmptyString, (String c s).
      * by exists (String c pre), suf.
    + intros (pre & suf & Heq & H). destruct pre as [|d pre].
      * left. change (String c s = suf) in Heq. by subst.
      * right. change (String c s = String d (pre +:+ suf)) in Heq.
        injection Heq as -> ->. eauto.
Qed.

Lemma like_char c p s :
  Ascii.eqb c Sql.percent = false -> Ascii.eqb c Sql.underscore = false ->
  Sql.like_from (String c p) s = true <->
  exists d s', s = String d s' /\ Sql.fold_case c = Sql.fold_case d
               /\ Sql.like_from p s' = true.
Proof.
  intros H1 H2. simpl. rewrite H1, H2. destruct s as [|d s'].
  - split; [done|]. by intros (? & ? & ? & _).
  - simpl. rewrite andb_true_iff, Ascii.eqb_eq. split.
    + intros [? ?]. eauto.
    + intros (? & ? & [= <- <-] & ? & ?). done.
Qed.

Lemma no_wildcard_cons c p :
  no_wildcard (String c p) = true ->
  Ascii.eqb c Sql.percent = false /\ Ascii.eqb c Sql.underscore = false
  /\ no_wildcard p = true.
Proof.
  unfold no_wildcard. simpl. rewrite !andb_true_iff, !negb_true_iff. tauto.
Qed.

(** Without wild cards, [LIKE] is equality up to ASCII case. *)
Lemma like_literal p : forall s,
  no_wildcard p = true ->
  Sql.like_from p s = true <-> fold_string p = fold_string s.
Proof.
  induction p as [|c p IH]; intros s Hp.
  - simpl. by destruct s.
  - apply no_wildcard_cons in Hp as (H1 & H2 & Hp).
    rewrite like_char by done. split.
    + intros (d & s' & -> & Hc & Hl). simpl. rewrite Hc. f_equal. by apply IH.
    + destruct s as [|d s']; simpl; [done|]. intros [= Hc Hs].
      exists d, s'. split_and!; [done|done|by apply IH].
Qed.

Lemma like_anything s : Sql.like_from (String Sql.percent EmptyString) s = true.
Proof.
  apply like_percent. exists s, EmptyString. split; [|done].
  induction s as [|c s IH]; [done|].
  change (String c s = String c (s +:+ EmptyString)). by f_equal.
Qed.

(** Without wild cards in [p], [LIKE p%] is a prefix up to ASCII case. *)
Lemma like_literal_percent p : forall s,
  no_wildcard p = true ->
  Sql.like_from (p +:+ String Sql.percent EmptyString) s = true <->
  exists mid suf, s = mid +:+ suf /\ fold_string p = fold_string mid.
Proof.
  induction p as [|c p IH]; intros s Hp.
  - change (EmptyString +:+ ?x) with x. rewrite like_anything. split; [|done].
    intros _. by exists EmptyString, s.
  - apply no_wildcard_cons in Hp as (H1 & H2 & Hp).
    change (String c p +:+ ?x) with (String c (p +:+ x)).
    rewrite like_char by done. split.
    + intros (d & s' & -> & Hc & Hl). apply IH in Hl as (mid & suf & -> & Hm); [|done].
      exists (String d mid), suf. split; [done|]. simpl. by rewrite Hc, Hm.
    + intros (mid & suf & -> & Hm). destruct mid as [|d mid]; simpl in Hm; [done|].
      injection Hm as Hc Hm. exists d, (mid +:+ suf). split_and!; [done|done|].
      apply IH; [done|]. eauto.
Qed.

(** Tier 1 in words, for a name without wild cards. *)
Lemma tier1_words name e :
  no_wildcard name = true ->
  tier1 name e = true <-> ends_with_up_to_case (fqname e) ("." +:+ name).
Proof.
  intros Hn. unfold tier1, Sql.like, ends_with_up_to_case.
  change ("%." +:+ name) with (String Sql.percent ("." +:+ name)).
  rewrite like_percent. split.
  - intros (pre & suf & ? & H). exists pre, suf. split; [done|].
    by apply like_literal in H.
  - intros (pre & suf & ? & H). exists pre, suf. split; [done|].
    by apply like_literal.
Qed.

(** Tier 2 in words, for a name without wild cards. *)
Lemma tier2_words name e :
  no_wildcard name = true ->
  tier2 name e = true <-> occurs_up_to_case (fqname e) name.
Proof.
  intros Hn. unfold tier2, Sql.like, occurs_up_to_case.
  change ("%" +:+ name +:+ "%") with
    (String Sql.percent (name +:+ String Sql.percent EmptyString)).
  rewrite like_percent. split.
  - intros (pre & rest & ? & H). apply like_literal_percent in H as (mid & suf & -> & ?);
      [|done]. by exists pre, mid, suf.
  - intros (pre & mid & suf & ? & H). exists pre, (mid +:+ suf). split; [done|].
    apply like_literal_percent; [done|]. eauto.
Qed.

(** *** [lookup_symbol] *)

Lemma select_tier_elem k cond ks rows e r :
  (e, r) ∈ select_tier k cond ks rows <->
  r = k /\ e ∈ rows /\ cond e = true /\ kind_clause ks e = true.
Proof.
  unfold select_tier. rewrite list_elem_of_fmap. split.
  - intros (e' & Heq & He). injection Heq as -> ->. apply list_elem_of_In, filter_In in He as [He Hc].
    apply andb_true_iff in Hc as [? ?]. by rewrite list_elem_of_In.
  - intros [-> (He & Hc & Hk)]. exists e. split; [done|].
    apply list_elem_of_In, filter_In. rewrite <- list_elem_of_In, Hc, Hk. done.
Qed.

(** The rows of the compound select: every tier an entity matches. *)
Lemma lookup_rows_elem s name kinds e r :
  (e, r) ∈ lookup_rows s name kinds <->
  e ∈ entities s /\ kind_clause (_normalize_kinds kinds) e = true
  /\ (r = 0 \/ r = 1 \/ r = 2) /\ tier_cond r name e = true.
Proof.
  unfold lookup_rows. rewrite sorted_by_elem, elem_of_remove_dups, !elem_of_app,
    !select_tier_elem.
  split.
  - intros [[-> (? & ? & ?)]|[[-> (? & ? & ?)]|[-> (? & ? & ?)]]]; split_and!; auto.
  - intros (He & Hk & [ -> | [ -> | -> ] ] & Hc); unfold tier_cond in Hc; simpl in Hc; auto 10.
Qed.

Lemma best_tier_sound name e b :
  best_tier name e = Some b ->
  (b = 0 \/ b = 1 \/ b = 2) /\ tier_cond b name e = true.
Proof.
  unfold best_tier.
  destruct (tier0 name e) eqn:H0; [intros [= <-]; auto|].
  destruct (tier1 name e) eqn:H1; [intros [= <-]; auto|].
  destruct (tier2 name e) eqn:H2; [intros [= <-]; auto|done].
Qed.

Lemma best_tier_least name e r :
  (r = 0 \/ r = 1 \/ r = 2) -> tier_cond r name e = true ->
  exists b, best_tier name e = Some b /\ b <= r.
Proof.
  unfold best_tier, tier_cond. intros [ -> | [ -> | -> ] ]; simpl; intros Hc.
  - rewrite Hc. exists 0. split; [done|lia].
  - destruct (tier0 name e); [exists 0; split; [done|lia]|].
    rewrite Hc. exists 1. split; [done|lia].
  - destruct (tier0 name e); [exists 0; split; [done|lia]|].
    destruct (tier1 name e); [exists 1; split; [done|lia]|].
    rewrite Hc. exists 2. split; [done|lia].
Qed.

(** The key of [ORDER BY rank, kind, fqname] orders as the words do. *)
Lemma row_key_order a b :
  key_le row_key cmp_ZSS a b <-> row_no_later a b.
Proof.
  unfold key_le, key_leb, leb_of, cmp_ZSS, cmp_pair, row_key, row_no_later, text_lt, lex.
  simpl.
  assert (Hk : kind a.1 = kind b.1 <-> String.compare (kind a.1) (kind b.1) = Eq).
  { split; [intros ->; apply string_compare_refl|apply String.compare_eq_iff]. }
  assert (Hf : fqname a.1 = fqname b.1 <-> String.compare (fqname a.1) (fqname b.1) = Eq).
  { split; [intros ->; apply string_compare_refl|apply String.compare_eq_iff]. }
  rewrite Hk, Hf, <- Z.compare_lt_iff, <- Z.compare_eq_iff.
  destruct (a.2 ?= b.2), (String.compare (kind a.1) (kind b.1)),
    (String.compare (fqname a.1) (fqname b.1)); intuition congruence.
Qed.

Lemma is_empty_iff s : PyStr.is_empty s = true <-> s = EmptyString.
Proof. by destruct s. Qed.

Lemma strip_of_empty k : PyStr.is_empty k = true -> PyStr.strip k = EmptyString.
Proof. intros H. apply is_empty_iff in H. by subst k. Qed.

(** The kind clause, with the allow-list normalised, in words. *)
Lemma kind_clause_words kinds e :
  kind_clause (_normalize_kinds kinds) e = true <-> passes_allow_list kinds e.
Proof.
  destruct kinds as [ks|]; [|done]. unfold _normalize_kinds, passes_allow_list.
  set (keep := fun k => negb (PyStr.is_empty k) && negb (PyStr.is_empty (PyStr.strip k))).
  assert (Hkeep : forall k, keep k = true <-> PyStr.strip k <> EmptyString).
  { intros k. unfold keep. rewrite andb_true_iff, !negb_true_iff. split.
    - intros [_ Hs] Heq. by rewrite Heq in Hs.
    - intros Hs. split.
      + destruct (PyStr.is_empty k) eqn:Hk; [|done].
        by apply strip_of_empty in Hk.
      + destruct (PyStr.is_empty (PyStr.strip k)) eqn:Hk; [|done].
        by apply is_empty_iff in Hk. }
  assert (Hout : forall x, In x (map PyStr.strip (List.filter keep ks))
            <-> exists k, k ∈ ks /\ PyStr.strip k <> EmptyString /\ x = PyStr.strip k).
  { intros x. rewrite in_map_iff. split.
    - intros (k & <- & Hk). apply filter_In in Hk as [Hk Hp].
      exists k. rewrite <- Hkeep, list_elem_of_In. done.
    - intros (k & Hk & Hp & ->). exists k. split; [done|].
      apply filter_In. rewrite <- list_elem_of_In, Hkeep. done. }
  destruct (map PyStr.strip (List.filter keep ks)) as [|o out] eqn:Hmap.
  - simpl. split; [|done]. intros _. left. intros k Hk.
    destruct (decide (PyStr.strip k = EmptyString)) as [|Hne]; [done|].
    exfalso. apply (proj2 (Hout (PyStr.strip k))). by exists k.
  - unfold kind_clause. rewrite existsb_exists. split.
    + intros (x & Hx & Heq). apply String.eqb_eq in Heq. subst x.
      right. apply Hout in Hx as (k & Hk & Hp & Hkind). by exists k.
    + intros [Hall|(k & Hk & Hp & Hkind)].
      * exfalso. assert (Ho : In o (o :: out)) by (by left).
        apply Hout in Ho as (k & Hk & Hp & _). by apply Hp, Hall.
      * exists (kind e). split; [|apply String.eqb_refl].
        apply Hout. by exists k.
Qed.

Lemma ends_with_occurs f t c :
  ends_with_up_to_case f (String c t) -> occurs_up_to_case f t.
Proof.
  intros (pre & suf & -> & Hfold). destruct suf as [|c' suf]; [done|].
  simpl in Hfold. injection Hfold as _ Hfold.
  exists (pre +:+ String c' EmptyString), suf, EmptyString. split; [|done].
  clear. induction pre as [|a pre IH].
  - change (String c' suf = String c' (suf +:+ EmptyString)). f_equal.
    induction suf as [|b suf IHs]; [done|].
    change (String b suf = String b (suf +:+ EmptyString)). by f_equal.
  - change (String a (pre +:+ String c' suf)
            = String a ((pre +:+ String c' EmptyString) +:+ suf +:+ EmptyString)).
    by f_equal.
Qed.

(** C1.  [lookup_symbol] does not give each matching entity once, at its
    best tier.  With [pkg.mod.fn], [pkg.sub.fn] and [pkg.fnx] indexed, the
    answer to [fn] has five rows for the three entities: the two tail
    matches are there at tier 1 and once more at tier 2, where the answer
    with every entity once has three rows.  It is so on every store: for
    a name without wild cards, an entity whose fqname ends with a dot and
    the name and that passes the allow-list has a row at tier 1 and a row
    at tier 2 before the cut, since [UNION] only drops rows that agree in
    every column and the rank is one of them. *)
Theorem lookup_symbol_returns_an_entity_at_two_tiers :
  map (fun r => (id (fst r), fqname (fst r), snd r))
    (lookup_symbol tier_store "fn" 25 None)
  = [(1, "pkg.mod.fn", 1); (2, "pkg.sub.fn", 1); (3, "pkg.fnx", 2);
     (1, "pkg.mod.fn", 2); (2, "pkg.sub.fn", 2)]
  /\ map (fun r => (id (fst r), fqname (fst r), snd r))
       (claimed_lookup tier_store "fn" 25 None)
     = [(1, "pkg.mod.fn", 1); (2, "pkg.sub.fn", 1); (3, "pkg.fnx", 2)]
  /\ ~ NoDup (map (fun r => id (fst r)) (lookup_symbol tier_store "fn" 25 None))
  /\ (forall (s : store) (name : string) (kinds : option (list string)) (e : entity),
        no_wildcard name = true ->
        e ∈ entities s ->
        passes_allow_list kinds e ->
        ends_with_up_to_case (fqname e) ("." +:+ name) ->
        (e, 1) ∈ lookup_rows s name kinds /\ (e, 2) ∈ lookup_rows s name kinds).
Proof.
  split; [reflexivity|]. split; [reflexivity|]. split.
  - intros Hnd. vm_compute in Hnd.
    apply NoDup_cons in Hnd as [Hnotin _]. apply Hnotin.
    do 2 right. left.
  - intros s name kinds e Hn He Hk Hends.
    apply kind_clause_words in Hk.
    split; apply lookup_rows_elem; split_and!; try done; auto.
    + unfold tier_cond. simpl. by apply tier1_words.
    + unfold tier_cond. simpl. apply tier2_words; [done|].
      by eapply ends_with_occurs.
Qed.

(** X9.  The answer of [lookup_symbol] as the code gives it, rows of
    entities with a tier: ordered by tier, then kind, then fqname, all ascending,
    and cut to [limit] rows (to nothing less when [limit] is negative).
    A row stands for an entity of the store that passes the kind
    allow-list and meets the condition of the row's tier: tier 0, the
    fqname is the name; tier 1, the fqname is [LIKE] a percent sign, a
    dot and the name; tier 2, the fqname is [LIKE] the name between two
    percent signs.  Before the cut every such entity has a row at its
    best tier and none at a better one.  [LIKE] folds ASCII case and
    reads a percent sign or an underscore in the name as a wild card; for
    a name without them tier 1 is the fqname ending with a dot and the
    name, and tier 2 the fqname holding the name, both up to ASCII case:
    [pkg.mod.FN] answers [fn] at tier 1. *)
Theorem lookup_symbol_answers_by_tier
    (s : store) (name : string) (limit : Z) (kinds : option (list string)) :
  (lookup_symbol s name limit kinds
   = if limit <? 0 then lookup_rows s name kinds
     else take (Z.to_nat limit) (lookup_rows s name kinds))
  /\ StronglySorted row_no_later (lookup_rows s name kinds)
  /\ (forall e r,
        (e, r) ∈ lookup_rows s name kinds ->
        e ∈ entities s
        /\ passes_allow_list kinds e
        /\ tier_cond r name e = true
        /\ exists b, best_tier name e = Some b /\ b <= r)
  /\ (forall e b,
        e ∈ entities s ->
        passes_allow_list kinds e ->
        best_tier name e = Some b ->
        (e, b) ∈ lookup_rows s name kinds)
  /\ (forall e,
        (tier0 name e = true <-> fqname e = name)
        /\ (no_wildcard name = true ->
            (tier1 name e = true <-> ends_with_up_to_case (fqname e) ("." +:+ name))
            /\ (tier2 name e = true <-> occurs_up_to_case (fqname e) name)))
  /\ lookup_symbol caps_store "fn" 1 None = [(tier_caps, 1)]
  /\ take 1 (map (fun r => (fqname (fst r), snd r))
               (lookup_symbol tier_store "pkg.mod.fn" 25 None))
     = [("pkg.mod.fn", 0)].
Proof.
  split_and!.
  - done.
  - eapply strongly_sorted_impl; [|apply sorted_by_sorted; apply _].
    intros x y. apply row_key_order.
  - intros e r Hin. apply lookup_rows_elem in Hin as (He & Hk & Hr & Hc).
    split_and!; try done; [by apply kind_clause_words|by apply best_tier_least].
  - intros e b He Hk Hb. apply best_tier_sound in Hb as [Hb Hc].
    apply lookup_rows_elem. by rewrite kind_clause_words.
  - intros e. split; [apply String.eqb_eq|].
    intros Hn. split; [by apply tier1_words|by apply tier2_words].
  - reflexivity.
  - reflexivity.
Qed.

End LookupFacts.

(** ** The scanner *)

Module IndexerFacts.
Import Store Indexer Spec Fixtures.

Section Hashed.
Variable _hash : string -> string.

(** C5. [_signature] leaves the positional-only parameters out: for
    [def f(a, /, b)] it gives [f(b)], where the composition of the
    specification, all the positional parameters first, is [f(a, b)]. *)
Theorem signature_drops_positional_only :
  _signature posonly_decl posonly_args = "f(b)"
  /\ claimed_signature posonly_decl posonly_args = "f(a, b)".
Proof. split; reflexivity. Qed.

(** Without positional-only parameters the signature is the composition
    of the specification. *)
Lemma signature_without_positional_only d a :
  posonlyargs a = [] -> _signature d a = claimed_signature d a.
Proof. intros H. unfold _signature, claimed_signature, claimed_params. by rewrite H. Qed.

Example signature_of_test_f : _signature posonly_decl test_f_args = "f(a, *args, **kwargs)".
Proof. reflexivity. Qed.

(** *** [ast.walk] *)

Lemma size_children n : size n = S (sizes (children n)).
Proof.
  assert (H : forall l,
             (fix sizes (l : list node) : nat :=
                match l with
                | [] => O
                | x :: l' => (size x + sizes l')%nat
                end) l = sizes l).
  { induction l as [|x l IH]; simpl; [done|]. by rewrite IH. }
  destruct n; simpl; by rewrite ?H.
Qed.

Lemma all_nodes_children n : all_nodes n = n :: flat_map all_nodes (children n).
Proof.
  assert (H : forall l,
             (fix below (l : list node) : list node :=
                match l with
                | [] => []
                | x :: l' => all_nodes x ++ below l'
                end) l = flat_map all_nodes l).
  { induction l as [|x l IH]; simpl; [done|]. by rewrite IH. }
  destruct n; simpl; by rewrite ?H.
Qed.

Lemma sizes_app l1 l2 : sizes (l1 ++ l2) = (sizes l1 + sizes l2)%nat.
Proof. induction l1 as [|x l1 IH]; simpl; [done|]. rewrite IH. lia. Qed.

(** With fuel for every node in the queue, the walk yields every node of
    every tree in the queue, each once. *)
Lemma walk_queue_all_nodes fuel : forall todo,
  (sizes todo <= fuel)%nat ->
  walk_queue fuel todo ≡ₚ flat_map all_nodes todo.
Proof.
  induction fuel as [|fuel IH]; intros [|n todo] Hfuel; simpl; try done.
  - simpl in Hfuel. rewrite size_children in Hfuel. lia.
  - rewrite IH.
    + rewrite flat_map_app, (all_nodes_children n). simpl.
      constructor. apply Permutation_app_comm.
    + simpl in Hfuel. rewrite size_children in Hfuel. rewrite sizes_app. lia.
Qed.

(** More fuel than the nodes need changes nothing: the walk is total. *)
Lemma walk_queue_fuel fuel : forall fuel' todo,
  (sizes todo <= fuel)%nat -> (fuel <= fuel')%nat ->
  walk_queue fuel' todo = walk_queue fuel todo.
Proof.
  induction fuel as [|fuel IH]; intros fuel' [|n todo] Hfuel Hle; simpl.
  - by destruct fuel'.
  - simpl in Hfuel. rewrite size_children in Hfuel. lia.
  - by destruct fuel'.
  - destruct fuel' as [|fuel']; [lia|]. simpl. f_equal. apply IH; [|lia].
    simpl in Hfuel. rewrite size_children in Hfuel. rewrite sizes_app. lia.
Qed.

Lemma walk_all_nodes tree : walk tree ≡ₚ all_nodes tree.
Proof.
  unfold walk. rewrite walk_queue_all_nodes; simpl; [|lia].
  by rewrite app_nil_r.
Qed.

Lemma filter_length_perm {A} (f : A -> bool) (l l' : list A) :
  l ≡ₚ l' -> length (List.filter f l) = length (List.filter f l').
Proof.
  induction 1 as [|x l l' _ IH|x y l|l l' l'' _ IH1 _ IH2]; simpl.
  - done.
  - destruct (f x); simpl; by rewrite IH.
  - by destruct (f x), (f y).
  - by rewrite IH1.
Qed.

Lemma scan_imports_walk mod_name body :
  scan_imports mod_name body
  = map (imports_relation mod_name) (flat_map imported_modules (walk (Other body))).
Proof.
  unfold scan_imports. induction (walk (Other body)) as [|n l IH]; simpl; [done|].
  rewrite map_app, IH. f_equal.
  destruct n as [names|[m|] names lvl| | |]; simpl; try done.
  - by rewrite map_map.
  - by destruct (PyStr.is_empty m).
Qed.

Lemma filter_all {A} (f : A -> bool) (l : list A) :
  Forall (fun x => f x = true) l -> List.filter f l = l.
Proof. induction 1 as [|x l Hx _ IH]; simpl; [done|]. by rewrite Hx, IH. Qed.

Lemma filter_none {A} (f : A -> bool) (l : list A) :
  Forall (fun x => f x = false) l -> List.filter f l = [].
Proof. induction 1 as [|x l Hx _ IH]; simpl; [done|]. by rewrite Hx. Qed.

Lemma scan_methods_defines mod_name file' fq body :
  Forall (fun x => String.eqb (rel x.2) "imports" = false)
    (scan_methods _hash mod_name file' fq body).
Proof.
  unfold scan_methods. induction body as [|n body IH]; simpl; [constructor|].
  apply Forall_app. split; [|exact IH].
  destruct n; repeat constructor.
Qed.

Lemma scan_body_defines mod_name file' body :
  Forall (fun x => String.eqb (rel x.2) "imports" = false)
    (scan_body _hash mod_name file' body).
Proof.
  unfold scan_body. induction body as [|n body IH]; simpl; [constructor|].
  apply Forall_app. split; [|exact IH].
  destruct n; repeat constructor. apply scan_methods_defines.
Qed.

Lemma scan_imports_imports mod_name body :
  Forall (fun r => String.eqb (rel r) "imports" = true) (scan_imports mod_name body).
Proof.
  rewrite scan_imports_walk. apply Forall_forall. intros r Hr.
  apply list_elem_of_fmap in Hr as (m & -> & _). done.
Qed.

(** The relations of a file that are imports are those of the walk. *)
Lemma index_file_imports (f : source_file) body mod_doc :
  existsb (fun part => existsb (String.eqb part) skipped_dirs) (parts f) = false ->
  parsed f = Some (body, mod_doc) ->
  List.filter (fun r => String.eqb (rel r) "imports") (index_file _hash f).2
  = scan_imports (module_name (rel_path f)) body.
Proof.
  intros Hskip Hparsed. unfold index_file. rewrite Hskip, Hparsed. simpl.
  rewrite List.filter_app, filter_none, filter_all; [done| |].
  - apply scan_imports_imports.
  - apply Forall_fmap. apply scan_body_defines.
Qed.

(** C4, as the code has it.  The imports relations of a file are, up to
    their order, one relation from the module id for every reference to
    an imported module anywhere in the file: one for each name of an
    [import] statement and one for each [from x import y] statement that
    names its module [x]; the relation holds that module name, never the
    imported symbol.  A module referred to [k] times has [k] relations:
    nothing is de-duplicated. *)
Theorem imports_relation_per_reference (mod_name : string) (body : list node) :
  scan_imports mod_name body
  ≡ₚ map (imports_relation mod_name) (import_references body)
  /\ (forall r, r ∈ scan_imports mod_name body ->
        src r = mod_name /\ rel r = "imports" /\ dst r ∈ import_references body)
  /\ (forall m, m ∈ import_references body ->
        imports_relation mod_name m ∈ scan_imports mod_name body)
  /\ (forall m,
        length (List.filter (fun r => String.eqb (dst r) m) (scan_imports mod_name body))
        = length (List.filter (String.eqb m) (import_references body)))
  /\ (forall (f : source_file) mod_doc,
        existsb (fun part => existsb (String.eqb part) skipped_dirs) (parts f) = false ->
        parsed f = Some (body, mod_doc) ->
        module_name (rel_path f) = mod_name ->
        List.filter (fun r => String.eqb (rel r) "imports") (index_file _hash f).2
        = scan_imports mod_name body).
Proof.
  assert (Hperm : scan_imports mod_name body
                  ≡ₚ map (imports_relation mod_name) (import_references body)).
  { rewrite scan_imports_walk. unfold import_references.
    apply Permutation_map, Permutation_flat_map, walk_all_nodes. }
  split_and!.
  - exact Hperm.
  - intros r Hr. rewrite Hperm in Hr.
    apply list_elem_of_fmap in Hr as (m & -> & Hm). done.
  - intros m Hm. rewrite Hperm. apply list_elem_of_fmap. eauto.
  - intros m. rewrite (filter_length_perm _ _ _ Hperm). clear Hperm.
    induction (import_references body) as [|x l IH]; simpl; [done|].
    rewrite (String.eqb_sym x m). destruct (String.eqb m x); simpl; by rewrite IH.
  - intros f mod_doc Hskip Hparsed <-. by eapply index_file_imports.
Qed.

End Hashed.

(** A module that is imported twice has two relations. *)
Lemma imports_relation_counterexample :
  scan_imports "pkg.mod" os_twice
  = [imports_relation "pkg.mod" "os"; imports_relation "pkg.mod" "os"]
  /\ ~ NoDup (scan_imports "pkg.mod" os_twice).
Proof.
  split; [reflexivity|].
  intros H. change (NoDup [imports_relation "pkg.mod" "os"; imports_relation "pkg.mod" "os"]) in H.
  apply NoDup_cons in H as [H _]. apply H. by left.
Qed.

Lemma imports_relation_per_reference_witness :
  imports_relation "pkg.mod" "os" ∈ scan_imports "pkg.mod" os_twice
  /\ length (List.filter (fun r => String.eqb (dst r) "os") (scan_imports "pkg.mod" os_twice))
     = 2%nat.
Proof.
  destruct (imports_relation_per_reference (fun text => text) "pkg.mod" os_twice)
    as (_ & _ & Hin & Hcount & _).
  split.
  - apply Hin. apply (list_elem_of_lookup_2 _ 0%nat). reflexivity.
  - rewrite Hcount. reflexivity.
Defined.

End IndexerFacts.

(** ** The patterns and the tokens of the normalizer *)

Module MatcherFacts.
Import PyStr Retrieve Spec.
































End MatcherFacts.

(** ** The query normalizer *)

Module NormalizerFacts.
Import Store Retrieve Spec MatcherFacts.









(** *** Trimming twice is trimming once *)

Lemma rstrip_empty s : PyStr.rstrip s = EmptyString -> PyStr.rstrip (PyStr.rstrip s) = EmptyString.
Proof. by intros ->. Qed.






(** [import os] has the shape of the [import] pattern, with the group
    [os]: the candidates start with it. *)
Example normalize_import_os :
  import_shape "import os" "os"
  /\ candidates (normalize_resolve_query "import os") = ["os"; "import os"].
Proof.
  split; [|vm_compute; reflexivity].
  exists EmptyString, " ", EmptyString. split_and!; try done.
  by exists "o"%char, "s".
Qed.

Example normalize_from_import :
  candidates (normalize_resolve_query "from pkg.mod import C as K, D")
  = ["C"; "pkg.mod.C"; "D"; "pkg.mod.D"; "pkg.mod"; "mod"; "pkg";
     "from pkg.mod import C as K, D"; "mod import C as K, D"].
Proof. vm_compute. reflexivity. Qed.

Example normalize_import :
  normalize_resolve_query " import a.b.c "
  = {| raw_query := "import a.b.c"; normalized_query := "a.b.c";
       candidates := ["a.b.c"; "c"; "b.c"; "b"; "import a.b.c"] |}.
Proof. vm_compute. reflexivity. Qed.

Example normalize_call :
  candidates (normalize_resolve_query "use `foo.Bar.baz(x)` here")
  = ["foo.Bar.baz"; "baz"; "Bar.baz"; "Bar"; "use `foo.Bar.baz(x)` here"; "baz(x)` here"].
Proof. vm_compute. reflexivity. Qed.

Example normalize_blank :
  normalize_resolve_query "   "
  = {| raw_query := EmptyString; normalized_query := EmptyString; candidates := [] |}.
Proof. vm_compute. reflexivity. Qed.

End NormalizerFacts.

(** ** The evaluator *)

Module EvaluatorFacts.
Import Store Retrieve Order OrderFacts Evaluator Spec Fixtures.




















(** A function and a class of one fqname: the kind read for the fqname
    is [function], the later of the two in the order of the index, so with
    the allow-list of [class] alone the fqname is not eligible, the recall
    is 0.0 and a warning is given. *)
Example stored_kind_of_twins :
  _fetch_entity_kinds twin_store {["pkg.x"]} !! "pkg.x" = Some "function"
  /\ exists rep d,
       evaluate_recall_at_k plain_warning twin_store silent_engine twin_qrels 1
         "lookup" (Some ["class"]) = Ok rep
       /\ details rep = [d]
       /\ eligible_relevant_count d = 0%nat
       /\ recall_at_k d = 0%float
       /\ excluded_relevant_by_kinds d = [("pkg.x", "function")]
       /\ warnings rep = ["Query x"].
Proof.
  split; [by vm_compute|].
  eexists _, _. split; [vm_compute; reflexivity|]. by split_and!.
Qed.

End EvaluatorFacts.

(** ** The entities still to summarise *)

Module SummariesFacts.
Import Store Order Summaries Fixtures OrderFacts StoreFacts.

Lemma sql_limit_prefix {A} (n : Z) (l : list A) :
  exists rest, l = sql_limit n l ++ rest.
Proof.
  unfold sql_limit. destruct (n <? 0).
  - exists []. by rewrite app_nil_r.
  - exists (drop (Z.to_nat n) l). by rewrite take_drop.
Qed.

Lemma sql_limit_elem {A} (n : Z) (l : list A) x : x ∈ sql_limit n l -> x ∈ l.
Proof.
  destruct (sql_limit_prefix n l) as [rest Hl]. intros Hx.
  rewrite Hl. apply elem_of_app. by left.
Qed.



Lemma sql_limit_map {A B} (f : A -> B) (n : Z) (l : list A) :
  sql_limit n (map f l) = map f (sql_limit n l).
Proof.
  unfold sql_limit. destruct (n <? 0); [done|].
  change (take (Z.to_nat n) (f <$> l) = f <$> take (Z.to_nat n) l).
  by rewrite fmap_take.
Qed.

Lemma kind_in_spec kinds r : kind_in kinds r = true <-> kind r ∈ kinds.
Proof.
  unfold kind_in. rewrite existsb_exists. split.
  - intros (k & Hk & Heq). apply String.eqb_eq in Heq. rewrite Heq.
    by apply list_elem_of_In.
  - intros Hk. exists (kind r). split; [by apply list_elem_of_In|].
    apply String.eqb_refl.
Qed.

Lemma needing_summary_elem s kinds r :
  r ∈ get_entities_needing_summary s kinds (-1)
  <-> r ∈ entities s /\ summary_missing r = true /\ kind r ∈ kinds_or_default kinds.
Proof.
  unfold get_entities_needing_summary, sql_limit. simpl.
  rewrite sorted_by_elem, list_elem_of_In, filter_In, <- kind_in_spec.
  rewrite andb_true_iff, <- list_elem_of_In. tauto.
Qed.

Lemma needing_summary_unlimited s kinds limit :
  limit < 0 ->
  get_entities_needing_summary s kinds limit = get_entities_needing_summary s kinds (-1).
Proof.
  intros Hl. unfold get_entities_needing_summary, sql_limit.
  by rewrite (proj2 (Z.ltb_lt limit 0) Hl).
Qed.


Lemma updated_rows_elem (f : entity -> entity) i rows r' :
  r' ∈ map (fun r => if has_id i r then f r else r) rows
  <-> exists r, r ∈ rows /\ r' = (if has_id i r then f r else r).
Proof.
  rewrite list_elem_of_In, in_map_iff. setoid_rewrite <- list_elem_of_In.
  split; intros (r & H1 & H2); exists r; done.
Qed.

Lemma has_id_true i r : has_id i r = true <-> id r = i.
Proof. unfold has_id. apply Z.eqb_eq. Qed.

Lemma has_id_false i r : has_id i r = false <-> id r <> i.
Proof. unfold has_id. apply Z.eqb_neq. Qed.

(** X2.  Once [write_summary_cur] has stored a non-empty summary for an
    entity, [get_entities_needing_summary] no longer lists that entity,
    whatever the kinds and the limit; and with a negative limit, which cuts
    nothing, it lists exactly the other rows it listed before. *)
Theorem summarised_entity_leaves_the_list
    now i txt h tr tok cov backend (s s' : store) (kinds : option (list string)) :
  write_summary_cur now i txt h tr tok cov backend s = (s', Done) ->
  txt <> EmptyString ->
  (forall limit r, r ∈ get_entities_needing_summary s' kinds limit -> id r <> i)
  /\ (forall limit r, limit < 0 ->
        (r ∈ get_entities_needing_summary s' kinds limit
         <-> r ∈ get_entities_needing_summary s kinds limit /\ id r <> i)).
Proof.
  intros Hw Htxt.
  destruct (write_summary_cur_done _ _ _ _ _ _ _ _ _ _ Hw) as (_ & Hrows & _).
  assert (Hiff : forall r, r ∈ get_entities_needing_summary s' kinds (-1)
            <-> r ∈ get_entities_needing_summary s kinds (-1) /\ id r <> i).
  { intros r. rewrite !needing_summary_elem, Hrows, updated_rows_elem. split.
    - intros ((r0 & Hr0 & ->) & Hmiss & Hkind).
      destruct (has_id i r0) eqn:Hid.
      + exfalso. unfold summary_missing in Hmiss. simpl in Hmiss.
        apply String.eqb_eq in Hmiss. done.
      + apply has_id_false in Hid. done.
    - intros ((Hr & Hmiss & Hkind) & Hid). split_and!; [|done..].
      exists r. split; [done|]. apply has_id_false in Hid. by rewrite Hid. }
  split.
  - intros limit r Hr. apply sql_limit_elem in Hr.
    change (r ∈ get_entities_needing_summary s' kinds (-1)) in Hr.
    by apply Hiff in Hr as [_ ?].
  - intros limit r Hl. rewrite !(needing_summary_unlimited _ kinds limit Hl).
    apply Hiff.
Qed.

Lemma summarised_entity_leaves_the_list_witness :
  (write_summary_cur "2026-06-01 12:00:00" 1 "text" "h1" false 12 "full" "codex"
     failed_store).2 = Done
  /\ (forall limit r,
        r ∈ get_entities_needing_summary
              (write_summary_cur "2026-06-01 12:00:00" 1 "text" "h1" false 12 "full"
                 "codex" failed_store).1 None limit -> id r <> 1)
  /\ (forall limit r, limit < 0 ->
        (r ∈ get_entities_needing_summary
               (write_summary_cur "2026-06-01 12:00:00" 1 "text" "h1" false 12 "full"
                  "codex" failed_store).1 None limit
         <-> r ∈ get_entities_needing_summary failed_store None limit /\ id r <> 1)).
Proof.
  split; [reflexivity|].
  apply (summarised_entity_leaves_the_list "2026-06-01 12:00:00" 1 "text" "h1" false 12
           "full" "codex" failed_store).
  - reflexivity.
  - discriminate.
Defined.

Lemma substring_length n : forall s,
  (String.length (String.substring 0 n s) <= n)%nat.
Proof.
  induction n as [|n IH]; intros [|c s]; simpl; try lia.
  specialize (IH s). lia.
Qed.

Lemma substring_prefix n : forall s,
  String.prefix (String.substring 0 n s) s = true.
Proof.
  induction n as [|n IH]; intros [|c s]; simpl; try done.
  destruct (Ascii.ascii_dec c c); [apply IH|done].
Qed.

Lemma substring_short n : forall s,
  (String.length s <= n)%nat -> String.substring 0 n s = s.
Proof.
  induction n as [|n IH]; intros [|c s]; simpl; try done; try lia.
  intros Hl. f_equal. apply IH. lia.
Qed.

Lemma insert_sorted_map {A K} (key : A -> K) (cmp : K -> K -> comparison)
    (f : A -> A) x l :
  (forall a, key (f a) = key a) ->
  insert_sorted key cmp (f x) (map f l) = map f (insert_sorted key cmp x l).
Proof.
  intros Hkey. induction l as [|y l IH]; simpl; [done|].
  unfold key_leb. rewrite !Hkey.
  destruct (leb_of cmp (key x) (key y)); simpl; [done|]. by rewrite IH.
Qed.

Lemma sorted_by_map {A K} (key : A -> K) (cmp : K -> K -> comparison)
    (f : A -> A) l :
  (forall a, key (f a) = key a) ->
  sorted_by key cmp (map f l) = map f (sorted_by key cmp l).
Proof.
  intros Hkey. induction l as [|x l IH]; simpl; [done|].
  unfold sorted_by in *. simpl. rewrite IH. by apply insert_sorted_map.
Qed.

Lemma filter_map_inv {A} (p : A -> bool) (f : A -> A) l :
  (forall a, p (f a) = p a) ->
  List.filter p (map f l) = map f (List.filter p l).
Proof.
  intros Hp. induction l as [|x l IH]; simpl; [done|].
  rewrite Hp. destruct (p x); simpl; by rewrite IH.
Qed.

(** X3.  [write_summary_error_cur] stores at most the first 500 characters
    of the message (the whole message when it is that short), and changes
    nothing that [get_entities_needing_summary] looks at: the entity stays
    listed at the same place, with the error recorded on it. *)
Theorem error_is_cut_and_entity_stays_listed
    (now : string) (i : Z) (err : string) (s : store)
    (kinds : option (list string)) (limit : Z) :
  get_entities_needing_summary (write_summary_error_cur now i err s) kinds limit
  = map (fun r => if has_id i r then set_error now err r else r)
      (get_entities_needing_summary s kinds limit)
  /\ (forall r, r ∈ entities (write_summary_error_cur now i err s) -> id r = i ->
        exists e, summary_error r = Some e
                  /\ (String.length e <= 500)%nat
                  /\ String.prefix e err = true
                  /\ ((String.length err <= 500)%nat -> e = err)).
Proof.
  split.
  - unfold get_entities_needing_summary, write_summary_error_cur. simpl.
    rewrite filter_map_inv, sorted_by_map, sql_limit_map; [done|..].
    + intros a. by destruct (has_id i a).
    + intros a. by destruct (has_id i a).
  - unfold write_summary_error_cur. simpl. intros r Hr Hid.
    apply updated_rows_elem in Hr as (r0 & Hr0 & ->).
    destruct (has_id i r0) eqn:Hh.
    + simpl. eexists. split; [done|]. split_and!.
      * apply substring_length.
      * apply substring_prefix.
      * apply substring_short.
    + apply has_id_false in Hh. done.
Qed.

(** X4.  [write_summary_cur] returns normally exactly when the backend is
    spelled codex and exactly one row has the id: the function itself
    refuses every backend but ollama and codex, and the CHECK of the
    column, which spells the other backend ollam, refuses ollama. *)
Theorem write_summary_cur_succeeds_iff now i txt h tr tok cov backend (s : store) :
  (write_summary_cur now i txt h tr tok cov backend s).2 = Done
  <-> backend = "codex"
      /\ length (filter (fun r => has_id i r = true) (entities s)) = 1%nat.
Proof.
  unfold write_summary_cur.
  destruct (String.eqb_spec backend "codex") as [->|Hc].
  - simpl.
    destruct (Z.eqb_spec (Z.of_nat (length (filter (fun r => has_id i r = true) (entities s)))) 1)
      as [H1|H1]; simpl; split; try done.
    + intros _. split; [done|lia].
    + intros [_ Hl]. lia.
  - destruct (String.eqb_spec backend "ollama") as [->|Ho]; simpl.
    + case_bool_decide as Hhit; simpl.
      * rewrite Hhit. simpl. split; [done|]. by intros [? _].
      * split; [done|]. by intros [? _].
    + split; [done|]. by intros [? _].
Qed.

End SummariesFacts.

(** ** What a scan does to the table *)

Module IngestFacts.
Import Store Order Spec Wellformed Fixtures StoreFacts.

Lemma same_key_spec e r : same_key e r = true <-> entity_key r = index_key e.
Proof.
  unfold same_key, entity_key, index_key.
  rewrite andb_true_iff, !String.eqb_eq. split.
  - by intros [-> ->].
  - intros H. by injection H.
Qed.

Lemma same_key_fresh now i e : same_key e (fresh now i e) = true.
Proof. unfold same_key. simpl. by rewrite !String.eqb_refl. Qed.

Lemma fresh_refreshed now i e : refreshed_from now e (fresh now i e).
Proof.
  unfold refreshed_from, fresh, get_or_empty. simpl.
  by destruct (ie_signature e), (ie_docstring e).
Qed.

Lemma existsb_same_key e rows :
  existsb (same_key e) rows = true <-> index_key e ∈ map entity_key rows.
Proof.
  rewrite existsb_exists, list_elem_of_In, in_map_iff. split.
  - intros (r & Hr & Hk). exists r. split; [|done]. by apply same_key_spec.
  - intros (r & Hk & Hr). exists r. split; [done|]. by apply same_key_spec.
Qed.

Lemma next_id_above rows r : r ∈ rows -> id r < next_id rows.
Proof.
  unfold next_id. induction rows as [|r0 rows IH]; intros Hr.
  - by apply elem_of_nil in Hr.
  - apply elem_of_cons in Hr as [->|Hr]; simpl; [lia|].
    specialize (IH Hr). lia.
Qed.

Lemma map_refresh_keys now e rows :
  map entity_key (map (fun r => if same_key e r then refresh now e r else r) rows)
  = map entity_key rows.
Proof.
  rewrite map_map. apply map_ext. intros r. by destruct (same_key e r).
Qed.

Lemma map_refresh_ids now e rows :
  map id (map (fun r => if same_key e r then refresh now e r else r) rows)
  = map id rows.
Proof.
  rewrite map_map. apply map_ext. intros r. by destruct (same_key e r).
Qed.

Lemma upsert_unique_keys now e rows :
  unique_keys rows -> unique_keys (upsert now e rows).
Proof.
  unfold unique_keys, upsert. intros Hu.
  destruct (existsb (same_key e) rows) eqn:Hex.
  - by rewrite map_refresh_keys.
  - rewrite map_app. simpl. apply NoDup_app. split_and!; [done| |].
    + intros k Hk Hk'. apply list_elem_of_singleton in Hk'. subst k.
      change (entity_key (fresh now (next_id rows) e)) with (index_key e) in Hk.
      apply existsb_same_key in Hk. congruence.
    + apply NoDup_singleton.
Qed.

Lemma upsert_unique_ids now e rows :
  unique_ids rows -> unique_ids (upsert now e rows).
Proof.
  unfold unique_ids, upsert. intros Hu.
  destruct (existsb (same_key e) rows).
  - by rewrite map_refresh_ids.
  - rewrite map_app. simpl. apply NoDup_app. split_and!; [done| |].
    + intros k Hk Hk'. apply list_elem_of_singleton in Hk'. subst k.
      apply list_elem_of_In, in_map_iff in Hk as (r & Hid & Hr).
      apply list_elem_of_In, next_id_above in Hr. lia.
    + apply NoDup_singleton.
Qed.

Lemma upsert_all_unique_keys clock es : forall i rows,
  unique_keys rows -> unique_keys (upsert_all clock i es rows).
Proof.
  induction es as [|e es IH]; intros i rows Hu; simpl; [done|].
  by apply IH, upsert_unique_keys.
Qed.

Lemma upsert_all_unique_ids clock es : forall i rows,
  unique_ids rows -> unique_ids (upsert_all clock i es rows).
Proof.
  induction es as [|e es IH]; intros i rows Hu; simpl; [done|].
  by apply IH, upsert_unique_ids.
Qed.

(** X5.  [ingest_index] keeps what the schema promises: when no two rows
    share (kind, fqname) and no two rows share an id before a scan is
    written, none do after it, however many entities of the scan are new
    and however often the scan names the same entity. *)
Theorem ingest_keeps_keys_and_ids_unique
    (clock : nat -> string) (idx : index) (s : store) :
  unique_keys (entities s) ->
  unique_ids (entities s) ->
  unique_keys (entities (ingest_index clock idx s))
  /\ unique_ids (entities (ingest_index clock idx s)).
Proof.
  intros Hk Hi. split.
  - by apply upsert_all_unique_keys.
  - by apply upsert_all_unique_ids.
Qed.

Lemma ingest_keeps_keys_and_ids_unique_witness :
  unique_keys (entities (ingest_index noon rescan test_store))
  /\ unique_ids (entities (ingest_index noon rescan test_store)).
Proof.
  apply (ingest_keeps_keys_and_ids_unique noon rescan test_store).
  - unfold unique_keys. simpl. apply NoDup_cons. split.
    + intros H. apply elem_of_cons in H as [H|H]; [discriminate|].
      by apply elem_of_nil in H.
    + apply NoDup_singleton.
  - unfold unique_ids. simpl. apply NoDup_cons. split.
    + intros H. apply elem_of_cons in H as [H|H]; [discriminate|].
      by apply elem_of_nil in H.
    + apply NoDup_singleton.
Defined.

Lemma upsert_length now e rows : (length rows <= length (upsert now e rows))%nat.
Proof.
  unfold upsert. destruct (existsb (same_key e) rows).
  - by rewrite length_map.
  - rewrite length_app. simpl. lia.
Qed.

Lemma upsert_all_length clock es : forall i rows,
  (length rows <= length (upsert_all clock i es rows))%nat.
Proof.
  induction es as [|e es IH]; intros i rows; simpl; [done|].
  etrans; [apply (upsert_length (clock i) e)|apply IH].
Qed.

(** X6.  A scan never removes or touches a row it does not name: a stored
    row whose (kind, fqname) no entity of the scan has is found unchanged at
    its place after [ingest_index], and the table never gets shorter. *)
Theorem ingest_leaves_unnamed_rows_alone
    (clock : nat -> string) (idx : index) (s : store) (p : nat) (r : entity) :
  entities s !! p = Some r ->
  (forall e, e ∈ idx_entities idx -> same_key e r = false) ->
  entities (ingest_index clock idx s) !! p = Some r
  /\ (length (entities s) <= length (entities (ingest_index clock idx s)))%nat.
Proof.
  intros Hp Hnone. split.
  - destruct (upsert_all_lookup clock (idx_entities idx) 0 _ p r Hp)
      as (r' & Hr' & _ & _ & _ & _ & Hsame & _).
    simpl. rewrite Hr'. f_equal. by apply Hsame.
  - apply upsert_all_length.
Qed.

Lemma ingest_leaves_unnamed_rows_alone_witness :
  entities (ingest_index noon rescan test_store) !! 1%nat = Some row_C
  /\ (length (entities test_store)
      <= length (entities (ingest_index noon rescan test_store)))%nat.
Proof.
  apply (ingest_leaves_unnamed_rows_alone noon rescan test_store 1 row_C).
  - reflexivity.
  - intros e He. simpl in He. apply list_elem_of_singleton in He. by subst e.
Defined.

Lemma same_key_ext e r r' :
  kind r' = kind r -> fqname r' = fqname r -> same_key e r' = same_key e r.
Proof. unfold same_key. by intros -> ->. Qed.

Lemma upsert_rows_with_key now e rows p r' :
  upsert now e rows !! p = Some r' -> same_key e r' = true ->
  refreshed_from now e r'.
Proof.
  unfold upsert. destruct (existsb (same_key e) rows) eqn:Hex; intros Hp Hk.
  - change (((fun r => if same_key e r then refresh now e r else r) <$> rows) !! p
            = Some r') in Hp.
    rewrite list_lookup_fmap in Hp.
    destruct (rows !! p) as [r|]; [|done]. simpl in Hp. injection Hp as <-.
    destruct (same_key e r) eqn:Hr; [apply refresh_refreshed|congruence].
  - destruct (decide (p < length rows)%nat) as [Hlt|Hge].
    + rewrite lookup_app_l in Hp by done.
      assert (existsb (same_key e) rows = true); [|congruence].
      apply existsb_exists. exists r'. split; [|done].
      apply list_elem_of_In. by eapply list_elem_of_lookup_2.
    + rewrite lookup_app_r in Hp by lia.
      destruct (p - length rows)%nat; [|done]. simpl in Hp. injection Hp as <-.
      apply fresh_refreshed.
Qed.

Lemma upsert_has_key now e rows :
  exists p r', upsert now e rows !! p = Some r' /\ same_key e r' = true.
Proof.
  unfold upsert. destruct (existsb (same_key e) rows) eqn:Hex.
  - apply existsb_exists in Hex as (r & Hr & Hk).
    apply list_elem_of_In, list_elem_of_lookup in Hr as [p Hp].
    exists p, (refresh now e r). split; [|by rewrite same_key_refresh].
    change (((fun r => if same_key e r then refresh now e r else r) <$> rows) !! p
            = Some (refresh now e r)).
    by rewrite list_lookup_fmap, Hp; simpl; rewrite Hk.
  - exists (length rows), (fresh now (next_id rows) e). split.
    + rewrite lookup_app_r by lia. by rewrite Nat.sub_diag.
    + apply same_key_fresh.
Qed.

Lemma upsert_new_rows now e rows p r' :
  upsert now e rows !! p = Some r' -> (length rows <= p)%nat ->
  same_key e r' = true.
Proof.
  unfold upsert. destruct (existsb (same_key e) rows); intros Hp Hge.
  - apply lookup_lt_Some in Hp. rewrite length_map in Hp. lia.
  - rewrite lookup_app_r in Hp by lia.
    destruct (p - length rows)%nat; [|done]. simpl in Hp. injection Hp as <-.
    apply same_key_fresh.
Qed.

Lemma upsert_all_new_rows clock es : forall i rows p r',
  upsert_all clock i es rows !! p = Some r' -> (length rows <= p)%nat ->
  exists j e, es !! j = Some e /\ same_key e r' = true.
Proof.
  induction es as [|e0 es IH]; intros i rows p r' Hp Hge; simpl in Hp.
  - apply lookup_lt_Some in Hp. lia.
  - destruct (decide (p < length (upsert (clock i) e0 rows))%nat) as [Hlt|Hnlt].
    + destruct (lookup_lt_is_Some_2 _ _ Hlt) as [r0 Hr0].
      destruct (upsert_all_lookup clock es (S i) _ p r0 Hr0)
        as (r'' & Hr'' & _ & Hkind & Hfq & _).
      rewrite Hp in Hr''. injection Hr'' as <-.
      exists 0%nat, e0. split; [done|].
      rewrite (same_key_ext _ _ _ Hkind Hfq). by eapply upsert_new_rows.
    + destruct (IH (S i) _ p r' Hp) as (j & e & Hj & Hk); [lia|].
      by exists (S j), e.
Qed.

Lemma upsert_all_has_key clock es : forall i rows j e,
  es !! j = Some e ->
  exists p r', upsert_all clock i es rows !! p = Some r' /\ same_key e r' = true.
Proof.
  induction es as [|e0 es IH]; intros i rows [|j] e Hj; simpl in *; try done.
  - injection Hj as <-.
    destruct (upsert_has_key (clock i) e0 rows) as (p & r0 & Hp & Hk).
    destruct (upsert_all_lookup clock es (S i) _ p r0 Hp)
      as (r' & Hr' & _ & Hkind & Hfq & _).
    exists p, r'. split; [done|]. by rewrite (same_key_ext _ _ _ Hkind Hfq).
  - by eapply IH.
Qed.

Lemma upsert_all_last clock es : forall i rows p r' j e,
  upsert_all clock i es rows !! p = Some r' ->
  es !! j = Some e -> same_key e r' = true ->
  (forall j' e', (j < j')%nat -> es !! j' = Some e' -> same_key e' r' = false) ->
  refreshed_from (clock (i + j)%nat) e r'.
Proof.
  induction es as [|e0 es IH]; intros i rows p r' [|j] e Hp Hj Hk Hlater;
    simpl in *; try done.
  - injection Hj as <-. replace (i + 0)%nat with i by lia.
    destruct (decide (p < length (upsert (clock i) e0 rows))%nat) as [Hlt|Hnlt].
    + destruct (lookup_lt_is_Some_2 _ _ Hlt) as [r0 Hr0].
      destruct (upsert_all_lookup clock es (S i) _ p r0 Hr0)
        as (r'' & Hr'' & _ & Hkind & Hfq & _ & Hsame & _).
      rewrite Hp in Hr''. injection Hr'' as <-.
      assert (r' = r0) as ->.
      { apply Hsame. intros e He.
        apply list_elem_of_lookup in He as [j' Hj'].
        rewrite <- (same_key_ext _ _ _ Hkind Hfq).
        apply (Hlater (S j') e); [lia|done]. }
      by eapply upsert_rows_with_key.
    + destruct (upsert_all_new_rows clock es (S i) _ p r' Hp) as (j' & e' & Hj' & Hk');
        [lia|].
      rewrite (Hlater (S j') e') in Hk'; [done|lia|done].
  - replace (i + S j)%nat with (S i + j)%nat by lia.
    eapply IH; [done..|].
    intros j' e' Hlt Hj'. apply (Hlater (S j') e'); [lia|done].
Qed.

(** X7.  After [ingest_index] every entity of the scan has a row with its
    (kind, fqname), whether the row was there or is new; and a row with the
    key of a scanned entity carries the file, span, signature, docstring
    and code hash of the last entity of the scan with that key, and the
    time at which that one was written. *)
Theorem ingest_stores_every_scanned_entity
    (clock : nat -> string) (idx : index) (s : store) (j : nat) (e : index_entity) :
  idx_entities idx !! j = Some e ->
  (exists p r', entities (ingest_index clock idx s) !! p = Some r'
                /\ same_key e r' = true)
  /\ (forall p r',
        entities (ingest_index clock idx s) !! p = Some r' ->
        same_key e r' = true ->
        (forall j' e', (j < j')%nat -> idx_entities idx !! j' = Some e' ->
                       index_key e' <> index_key e) ->
        refreshed_from (clock j) e r').
Proof.
  intros Hj. split.
  - by apply (upsert_all_has_key clock (idx_entities idx) 0 (entities s) j e).
  - intros p r' Hp Hk Hlater.
    apply (upsert_all_last clock (idx_entities idx) 0 (entities s) p r' j e);
      [done..|].
    intros j' e' Hlt Hj'. specialize (Hlater j' e' Hlt Hj').
    destruct (same_key e' r') eqn:Hk'; [|done].
    apply same_key_spec in Hk, Hk'. congruence.
Qed.

Lemma ingest_stores_every_scanned_entity_witness :
  (exists p r', entities (ingest_index noon rescan test_store) !! p = Some r'
                /\ same_key fn_rescanned r' = true)
  /\ (forall p r',
        entities (ingest_index noon rescan test_store) !! p = Some r' ->
        same_key fn_rescanned r' = true ->
        (forall j' e', (0 < j')%nat -> idx_entities rescan !! j' = Some e' ->
                       index_key e' <> index_key fn_rescanned) ->
        refreshed_from (noon 0%nat) fn_rescanned r').
Proof.
  apply (ingest_stores_every_scanned_entity noon rescan test_store 0 fn_rescanned).
  reflexivity.
Defined.

Lemma existsb_same_key_map now e e' rows :
  existsb (same_key e')
    (map (fun r => if same_key e r then refresh now e r else r) rows)
  = existsb (same_key e') rows.
Proof.
  induction rows as [|r rows IH]; simpl; [done|]. rewrite IH. f_equal.
  destruct (same_key e r); [apply same_key_refresh|done].
Qed.

Lemma upsert_all_known_length clock es : forall i rows,
  (forall e, e ∈ es -> existsb (same_key e) rows = true) ->
  length (upsert_all clock i es rows) = length rows.
Proof.
  induction es as [|e0 es IH]; intros i rows Hall; simpl; [done|].
  assert (H0 : existsb (same_key e0) rows = true) by (apply Hall; by left).
  unfold upsert. rewrite H0. rewrite IH.
  - by rewrite length_map.
  - intros e He. rewrite existsb_same_key_map. apply Hall. by right.
Qed.

Lemma forget_time_eq r1 r2 now1 now2 e :
  id r2 = id r1 -> kind r2 = kind r1 -> fqname r2 = fqname r1 ->
  summary_fields_kept r1 r2 ->
  refreshed_from now1 e r1 -> refreshed_from now2 e r2 ->
  forget_time r2 = forget_time r1.
Proof.
  intros Hid Hkind Hfq (H1 & H2 & H3 & H4 & H5 & H6 & H7)
    (F1 & F2 & F3 & F4 & F5 & F6 & _) (G1 & G2 & G3 & G4 & G5 & G6 & _).
  unfold forget_time.
  rewrite Hid, Hkind, Hfq, H1, H2, H3, H4, H5, H6, H7.
  rewrite G1, G2, G3, G4, G5, G6, F1, F2, F3, F4, F5, F6. reflexivity.
Qed.

Lemma rebuild_fts_forget rows :
  rebuild_fts (map forget_time rows) = rebuild_fts rows.
Proof. unfold rebuild_fts. rewrite map_map. by apply map_ext. Qed.

Lemma upsert_all_again clock clock' es rows :
  map forget_time (upsert_all clock' 0 es (upsert_all clock 0 es rows))
  = map forget_time (upsert_all clock 0 es rows).
Proof.
  set (rows1 := upsert_all clock 0 es rows).
  assert (Hlen : length (upsert_all clock' 0 es rows1) = length rows1).
  { apply upsert_all_known_length. intros e He.
    apply list_elem_of_lookup in He as [j Hj].
    destruct (upsert_all_has_key clock es 0 rows j e Hj) as (p & r' & Hp & Hk).
    apply existsb_exists. exists r'. split; [|done].
    apply list_elem_of_In. by eapply list_elem_of_lookup_2. }
  apply list_eq. intros p.
  change (map forget_time ?l) with (forget_time <$> l).
  rewrite !list_lookup_fmap.
  destruct (rows1 !! p) as [r1|] eqn:Hr1.
  - destruct (upsert_all_lookup clock' es 0 rows1 p r1 Hr1)
      as (r2 & Hr2 & Hid & Hkind & Hfq & Hkept & Hsame & Hlast).
    rewrite Hr2. simpl. f_equal.
    destruct (existsb (fun e => same_key e r1) es) eqn:Hex.
    + apply existsb_exists in Hex as (e & He & Hk).
      apply list_elem_of_In, list_elem_of_lookup in He as [j Hj].
      destruct (last_match (fun e => same_key e r1) es j e Hj Hk)
        as (j' & e' & _ & Hj' & Hk' & Hlater).
      apply (forget_time_eq r1 r2 (clock (0 + j')%nat) (clock' (0 + j')%nat) e');
        [done..| |].
      * by apply (upsert_all_last clock es 0 rows p r1 j' e').
      * by apply Hlast.
    + f_equal. apply Hsame. intros e He.
      apply not_true_iff_false. intros Hk.
      apply not_true_iff_false in Hex. apply Hex.
      apply existsb_exists. exists e. split; [by apply list_elem_of_In|done].
  - apply lookup_ge_None in Hr1.
    rewrite (proj2 (lookup_ge_None _ _)); [done|]. lia.
Qed.

(** X8.  Writing the same scan twice in a row changes nothing but the
    time of the rows: [ingest_index] applied to its own result gives the
    same rows up to [updated_at], the same relations and the same
    full-text index. *)
Theorem ingest_twice_changes_only_the_time
    (clock clock' : nat -> string) (idx : index) (s : store) :
  map forget_time (entities (ingest_index clock' idx (ingest_index clock idx s)))
  = map forget_time (entities (ingest_index clock idx s))
  /\ relations (ingest_index clock' idx (ingest_index clock idx s))
     = relations (ingest_index clock idx s)
  /\ entities_fts (ingest_index clock' idx (ingest_index clock idx s))
     = entities_fts (ingest_index clock idx s).
Proof.
  split_and!.
  - apply upsert_all_again.
  - done.
  - simpl. rewrite <- (rebuild_fts_forget (upsert_all clock' _ _ _)).
    rewrite upsert_all_again. apply rebuild_fts_forget.
Qed.

End IngestFacts.
